(** * WhisperX FLOW: the supervisor's line protocol and the worker's command parser

    A shallow embedding of the parts of [__init__.py] (the Blender add-on that
    supervises the worker process) and of [whisperx_runner.py] (the worker's
    command loop) that the protocol properties are about.

    Python strings are sequences of Unicode code points; they are modelled as
    lists of code points ([N]).  The string methods the program calls
    ([strip], [startswith], [endswith], [in], [split], [join], slicing) are
    given their CPython meaning in module [Py]. *)

From Stdlib Require Import String Ascii List NArith ZArith Bool Lia.
From Stdlib Require DecimalString.
Import ListNotations.

Set Implicit Arguments.

(* ================================================================== *)
(** ** Python string primitives *)
(* ================================================================== *)

Module Py.

Definition char := N.
Definition str := list char.

(** A string literal of the source, as the list of its code points. *)
Definition lit (s : string) : str := map N_of_ascii (list_ascii_of_string s).

Fixpoint str_eqb (a b : str) : bool :=
  match a, b with
  | [], [] => true
  | x :: a', y :: b' => N.eqb x y && str_eqb a' b'
  | _, _ => false
  end.

(** [str.isspace] on one code point: the table of [_PyUnicode_IsWhitespace]. *)
Definition isspace (c : char) : bool :=
  (((9 <=? c) && (c <=? 13)) || ((28 <=? c) && (c <=? 32))
   || (c =? 133) || (c =? 160) || (c =? 5760)
   || ((8192 <=? c) && (c <=? 8202))
   || (c =? 8232) || (c =? 8233) || (c =? 8239) || (c =? 8287)
   || (c =? 12288))%N.

Fixpoint lstrip (s : str) : str :=
  match s with
  | [] => []
  | c :: s' => if isspace c then lstrip s' else s
  end.

Definition rstrip (s : str) : str := rev (lstrip (rev s)).

(** [s.strip()] with no argument. *)
Definition strip (s : str) : str := rstrip (lstrip s).

Fixpoint startswith (p s : str) : bool :=
  match p, s with
  | [], _ => true
  | x :: p', y :: s' => N.eqb x y && startswith p' s'
  | _ :: _, [] => false
  end.

Definition endswith (p s : str) : bool := startswith (rev p) (rev s).

(** [needle in s]. *)
Fixpoint contains (needle s : str) : bool :=
  startswith needle s
  || match s with
     | [] => false
     | _ :: s' => contains needle s'
     end.

(** Slice bounds: a negative index counts from the end, and both ends are
    clipped to the sequence. *)
Definition norm_index (len i : Z) : Z :=
  if (i <? 0)%Z then Z.max 0 (i + len) else Z.min i len.

(** [s[i:j]] *)
Definition slice {A} (s : list A) (i j : Z) : list A :=
  let len := Z.of_nat (length s) in
  let a := norm_index len i in
  let b := norm_index len j in
  firstn (Z.to_nat (b - a)) (skipn (Z.to_nat a) s).

(** [s[i:]] *)
Definition slice_from {A} (s : list A) (i : Z) : list A :=
  skipn (Z.to_nat (norm_index (Z.of_nat (length s)) i)) s.

(** [s.split(sep)] for a non-empty [sep]: separators are found left to
    right and do not overlap.  [skip] counts the characters of a separator
    still to be passed over, [cur] is the current piece, reversed. *)
Fixpoint split_go (sep s : str) (skip : nat) (cur : str) : list str :=
  match s with
  | [] => [rev cur]
  | c :: s' =>
      match skip with
      | S k => split_go sep s' k cur
      | O =>
          if startswith sep s
          then rev cur :: split_go sep s' (length sep - 1) []
          else split_go sep s' 0 (c :: cur)
      end
  end.

Definition split (sep s : str) : list str := split_go sep s 0 [].

(** [sep.join(pieces)] *)
Fixpoint join (sep : str) (pieces : list str) : str :=
  match pieces with
  | [] => []
  | [x] => x
  | x :: rest => x ++ sep ++ join sep rest
  end.

(** [s.strip(chars)]: characters of [chars] are removed from both ends. *)
Fixpoint lstrip_chars (chars s : str) : str :=
  match s with
  | [] => []
  | c :: s' => if existsb (N.eqb c) chars then lstrip_chars chars s' else s
  end.

Definition strip_chars (chars s : str) : str :=
  rev (lstrip_chars chars (rev (lstrip_chars chars s))).

(** [s.split()] with no argument: the maximal runs of characters that are
    not whitespace.  [cur] is the current run, reversed. *)
Fixpoint split_ws_go (s cur : str) : list str :=
  match s with
  | [] => match cur with [] => [] | _ :: _ => [rev cur] end
  | c :: s' =>
      if isspace c then
        match cur with
        | [] => split_ws_go s' []
        | _ :: _ => rev cur :: split_ws_go s' []
        end
      else split_ws_go s' (c :: cur)
  end.

Definition split_ws (s : str) : list str := split_ws_go s [].

End Py.

(* ================================================================== *)
(** ** whisperx_runner.py: the worker's command parser *)
(* ================================================================== *)

Module Runner.
Import Py.

(** [WhisperXCLI.parse_command]: the command name ([None] for an unknown
    command) and the argument list. *)
Definition parse_command (command : str) : option str * list str :=
  let command := strip command in
  if str_eqb command (lit "exit()") then
    (Some (lit "exit"), [])
  else if str_eqb command (lit "list-models()") then
    (Some (lit "list-models"), [])
  else if startswith (lit "load-model(") command && endswith (lit ")") command then
    let arg := strip (slice command 11 (-1)) in
    (Some (lit "load-model"), [arg])
  else if startswith (lit "transcribe-audio(") command && endswith (lit ")") command then
    let arg := strip (slice command 17 (-1)) in
    (Some (lit "transcribe-audio"), [arg])
  else
    (None, []).

(** The keys of [self.available_models], in the order of the dictionary. *)
Definition available_models : list str :=
  map lit ["tiny"; "tiny.en"; "base"; "base.en"; "small"; "small.en";
           "medium"; "medium.en"; "large"; "large-v1"; "large-v2"; "large-v3"]%string.

(** The argument of [strip] in [load_model] and [transcribe_audio]: the
    double and the single quote. *)
Definition QUOTES : str := [34%N; 39%N].

(** The head of [load_model]: the name without surrounding quotes, when it
    is a key of the table; [None] stands for the "not found" exit. *)
Definition load_model_name (model_name : str) : option str :=
  let model_name := strip_chars QUOTES model_name in
  if existsb (str_eqb model_name) available_models then Some model_name else None.


(** What one round of the loop of [run] does with the line read from the
    standard input; [strip] removes the line end if it is still there. *)
Inductive action :=
| Prompt                        (* empty command: ask again *)
| Exit
| ListModels
| LoadModel (model_name : str)
| LoadModelUsage                (* "load-model requires a model name" *)
| TranscribeAudio (audio_path : str)
| TranscribeAudioUsage          (* "transcribe-audio requires an audio file path" *)
| InvalidCommand.

Definition dispatch (line : str) : action :=
  let command := strip line in
  match command with
  | [] => Prompt
  | _ :: _ =>
      let '(cmd_name, args) := parse_command command in
      match cmd_name with
      | None => InvalidCommand
      | Some name =>
          if str_eqb name (lit "exit") then Exit
          else if str_eqb name (lit "list-models") then ListModels
          else if str_eqb name (lit "load-model") then
            match args with
            | arg :: _ => LoadModel arg
            | [] => LoadModelUsage
            end
          else if str_eqb name (lit "transcribe-audio") then
            match args with
            | arg :: _ => TranscribeAudio arg
            | [] => TranscribeAudioUsage
            end
          else InvalidCommand
      end
  end.

(** [self.emoji] *)
Definition emoji (use_ascii : bool) (emoji_char ascii_alt : str) : str :=
  if use_ascii then ascii_alt else emoji_char.

(** Two lines [load_model] prints: when the model is the one in memory, and
    at the end of a successful load.  [mark] is what [self.emoji] returned. *)
Definition already_loaded_line (mark model_name : str) : str :=
  mark ++ lit " Model '" ++ model_name ++ lit "' is already loaded and ready!".

Definition fully_loaded_line (mark model_name : str) : str :=
  mark ++ lit " Model '" ++ model_name
       ++ lit "' fully loaded and optimized for fast transcription!".







End Runner.

(* ================================================================== *)
(** ** __init__.py: properties, deferred updates and the reader loop *)
(* ================================================================== *)

Module Addon.
Import Py.

Definition STATE_INITIAL : Z := 0.
Definition STATE_RUNNING : Z := 1.
Definition STATE_MODEL_READY : Z := 2.
Definition STATE_PROCESSING : Z := 3.
Definition STATE_TRANSCRIBED : Z := 4.

(** The fields of [WhisperXProperties] that the supervisor reads or writes.
    The purely cosmetic settings (NLA and sequencer options, [show_advanced])
    and the wall-clock stamp [last_update_time] are left out, as is the
    redraw request [force_ui_update]. *)
Record WhisperXProperties := mkProps {
  ui_state : Z;
  process_running : bool;
  available_models : str;
  audio_file_path : str;
  script_path : str;
  status_message : str;
  loaded_model : str;
  process_log : str;
  transcription_output : str
}.

(** The property defaults declared in the class. *)
Definition default_props : WhisperXProperties :=
  {| ui_state := STATE_INITIAL;
     process_running := false;
     available_models := lit "tiny.en";
     audio_file_path := [];
     script_path := [];
     status_message := lit "Ready to start";
     loaded_model := lit "None";
     process_log := [];
     transcription_output := [] |}.

Definition set_ui_state (v : Z) (p : WhisperXProperties) :=
  mkProps v (process_running p) (available_models p) (audio_file_path p)
    (script_path p) (status_message p) (loaded_model p) (process_log p)
    (transcription_output p).
Definition set_process_running (v : bool) (p : WhisperXProperties) :=
  mkProps (ui_state p) v (available_models p) (audio_file_path p)
    (script_path p) (status_message p) (loaded_model p) (process_log p)
    (transcription_output p).
Definition set_audio_file_path (v : str) (p : WhisperXProperties) :=
  mkProps (ui_state p) (process_running p) (available_models p) v
    (script_path p) (status_message p) (loaded_model p) (process_log p)
    (transcription_output p).
Definition set_script_path (v : str) (p : WhisperXProperties) :=
  mkProps (ui_state p) (process_running p) (available_models p)
    (audio_file_path p) v (status_message p) (loaded_model p) (process_log p)
    (transcription_output p).
Definition set_status_message (v : str) (p : WhisperXProperties) :=
  mkProps (ui_state p) (process_running p) (available_models p)
    (audio_file_path p) (script_path p) v (loaded_model p) (process_log p)
    (transcription_output p).
Definition set_loaded_model (v : str) (p : WhisperXProperties) :=
  mkProps (ui_state p) (process_running p) (available_models p)
    (audio_file_path p) (script_path p) (status_message p) v (process_log p)
    (transcription_output p).
Definition set_process_log (v : str) (p : WhisperXProperties) :=
  mkProps (ui_state p) (process_running p) (available_models p)
    (audio_file_path p) (script_path p) (status_message p) (loaded_model p) v
    (transcription_output p).
Definition set_transcription_output (v : str) (p : WhisperXProperties) :=
  mkProps (ui_state p) (process_running p) (available_models p)
    (audio_file_path p) (script_path p) (status_message p) (loaded_model p)
    (process_log p) v.

(** [str(n)] for an integer. *)
Definition str_of_int (n : Z) : str :=
  lit (DecimalString.NilZero.string_of_int (Z.to_int n)).

Definition NL : str := lit (String (ascii_of_nat 10) EmptyString).

(** *** Child process and globals *)

(** What the add-on does to the operating system, oldest action first. *)
Inductive io_action :=
| Spawn (script : str)
| Write (data : str)
| Flush
| CloseStdin
| Terminate
| Kill
| Sleep (milliseconds : nat).

(** A [Popen] handle.  [alive_at n] is the answer of the [n]-th liveness
    check ([poll() is None]) made through this handle; it belongs to the
    worker, not to the add-on. *)
Record process := mkProcess {
  alive_at : nat -> bool;
  polls : nat;
  stdin_closed : bool
}.

Definition poll (pr : process) : bool * process :=
  (alive_at pr (polls pr), mkProcess (alive_at pr) (S (polls pr)) (stdin_closed pr)).

(** The closures handed to [bpy.app.timers.register]: each constructor is
    the [_update] closure built by the function of the same name. *)
Inductive update :=
| add_to_log (line : str)
| update_loaded_model (model_name : str)
| update_transcription_output (json_text : str)
| update_status (message : str)
| update_ui_state (state : Z)
| process_ended (exit_code : option Z)
| cleanup_thread.

(** The scene properties together with the module's globals, the timer
    queue of the host (in registration order) and the trace of actions on
    the operating system. *)
Record world := mkWorld {
  props : WhisperXProperties;
  whisperx_process : option process;
  process_thread : option bool;   (* the thread object, with [is_alive()] *)
  timers : list update;
  trace : list io_action
}.

Definition set_props (p : WhisperXProperties) (w : world) :=
  mkWorld p (whisperx_process w) (process_thread w) (timers w) (trace w).
Definition register (us : list update) (w : world) :=
  mkWorld (props w) (whisperx_process w) (process_thread w) (timers w ++ us)
    (trace w).

Definition initial_world : world :=
  mkWorld default_props None None [] [].

(** *** The deferred updates *)

(** [add_to_log]'s closure. *)
Definition run_add_to_log (line : str) (p : WhisperXProperties) : WhisperXProperties :=
  let log := process_log p ++ line ++ NL in
  let lines := split NL log in
  if (100 <? length lines)%nat
  then set_process_log (join NL (slice_from lines (-100))) p
  else set_process_log log p.

(** [update_loaded_model]'s closure. *)
Definition run_update_loaded_model (model_name : str) (p : WhisperXProperties) :=
  set_ui_state STATE_MODEL_READY
    (set_status_message (lit "Model '" ++ model_name ++ lit "' loaded")
       (set_loaded_model model_name p)).

(** [update_transcription_output]'s closure.  Adding the audio to the scene
    touches Blender data only and is not modelled. *)
Definition run_update_transcription_output (json_text : str) (p : WhisperXProperties) :=
  set_status_message (lit "Transcription complete")
    (set_ui_state STATE_TRANSCRIBED
       (set_transcription_output json_text p)).

(** The part of [process_ended]'s closure that acts on the properties. *)
Definition run_process_ended (exit_code : option Z) (p : WhisperXProperties) :=
  let p := set_loaded_model (lit "None")
             (set_ui_state STATE_INITIAL (set_process_running false p)) in
  match exit_code with
  | Some c =>
      if (c =? 0)%Z
      then set_process_log (process_log p ++ lit "Process ended normally" ++ NL)
             (set_status_message (lit "Service stopped") p)
      else set_process_log
             (process_log p ++ lit "Process exited with error code: "
                ++ str_of_int c ++ NL)
             (set_status_message
                (lit "Service stopped with error (code: " ++ str_of_int c ++ lit ")") p)
  | None =>
      set_process_log (process_log p ++ lit "Process ended normally" ++ NL)
        (set_status_message (lit "Service stopped") p)
  end.

(** Running one registered closure on the consumer thread. *)
Definition run_update (u : update) (w : world) : world :=
  match u with
  | add_to_log line => set_props (run_add_to_log line (props w)) w
  | update_loaded_model name => set_props (run_update_loaded_model name (props w)) w
  | update_transcription_output text =>
      set_props (run_update_transcription_output text (props w)) w
  | update_status message => set_props (set_status_message message (props w)) w
  | update_ui_state state => set_props (set_ui_state state (props w)) w
  | process_ended exit_code =>
      mkWorld (run_process_ended exit_code (props w)) None None (timers w) (trace w)
  | cleanup_thread =>
      match process_thread w with
      | Some true => register [add_to_log (lit "Process thread cleanup completed")] w
      | _ => w
      end
  end.

(** Closures are run in the order in which they were registered. *)
Definition deliver (us : list update) (w : world) : world :=
  fold_left (fun w u => run_update u w) us w.

(** One pass of the host over its timer queue; closures registered during
    the pass wait for the next one. *)
Definition run_timers (w : world) : world :=
  deliver (timers w)
    (mkWorld (props w) (whisperx_process w) (process_thread w) [] (trace w)).

(** *** The reader loop *)

Definition DELIMITER : str :=
  lit "============================================================".

(** The local variables of [read_process_output]. *)
Record reader := mkReader {
  json_capture : bool;
  json_lines : list str
}.

Definition reader_start : reader := mkReader false [].

Definition QUOTE : char := 39%N.

(** The longest prefix without a quote, and what follows it. *)
Fixpoint span_unquoted (s : str) : str * str :=
  match s with
  | [] => ([], [])
  | c :: s' =>
      if N.eqb c QUOTE then ([], s)
      else let '(a, b) := span_unquoted s' in (c :: a, b)
  end.

(** [re.search(r"Model '([^']+)'", line)]: group 1 of the leftmost match. *)
Fixpoint search_model (line : str) : option str :=
  match line with
  | [] => None
  | _ :: rest =>
      if startswith (lit "Model '") line then
        let '(name, closing) := span_unquoted (skipn 7 line) in
        match name, closing with
        | _ :: _, _ :: _ => Some name
        | _, _ => search_model rest
        end
      else search_model rest
  end.

(** The two blocks "Parse status messages" and "Update status based on key
    phrases" of the loop body. *)
Definition scan_status (line : str) : list update :=
  (if contains (lit "Model") line && contains (lit "loaded") line then
     match search_model line with
     | Some model_name => [update_loaded_model model_name]
     | None => []
     end
   else [])
  ++
  (if contains (lit "Error:") line then
     [update_status
        (lit "Error: " ++ strip (nth 1 (split (lit "Error:") line) []))]
   else if contains (lit "Starting") line || contains (lit "Setting up") line then
     [update_status (lit "Starting service...")]
   else if contains (lit "Environment setup complete") line then
     [update_status (lit "Service running"); update_ui_state STATE_RUNNING]
   else if contains (lit "Transcribing") line then
     [update_status (lit "Transcribing audio...")]
   else if contains (lit "Downloading") line || contains (lit "Loading model") line then
     [update_status (lit "Loading model...")]
   else if contains (lit "Transcription completed") line then
     [update_status (lit "Processing transcription...")]
   else []).

(** The first block of the loop body: delimiter detection, capture, log. *)
Definition capture_step (r : reader) (line : str) : reader * list update :=
  if startswith DELIMITER line then
    if json_capture r then
      (mkReader false [], [update_transcription_output (join NL (json_lines r))])
    else
      (mkReader true (json_lines r), [])
  else if json_capture r then
    (mkReader true (json_lines r ++ [line]), [])
  else
    (r, [add_to_log line]).

(** One iteration of the loop on what [readline] returned.  An empty read
    is skipped; exceptions of the stream itself are not modelled. *)
Definition reader_step (r : reader) (raw : str) : reader * list update :=
  match raw with
  | [] => (r, [])
  | _ :: _ =>
      let line := strip raw in
      let '(r', us) := capture_step r line in
      (r', us ++ scan_status line)
  end.

(** The loop over the lines read while the worker is alive. *)
Fixpoint read_lines (r : reader) (raws : list str) : reader * list update :=
  match raws with
  | [] => (r, [])
  | raw :: rest =>
      let '(r1, us1) := reader_step r raw in
      let '(r2, us2) := read_lines r1 rest in
      (r2, us1 ++ us2)
  end.

(** [read_process_output] on a worker that writes [raws] and then exits
    with [exit_code]: the closures it registers, in order. *)
Definition read_process_output (raws : list str) (exit_code : Z) : list update :=
  snd (read_lines reader_start raws)
  ++ [add_to_log (lit "Process exited with code " ++ str_of_int exit_code);
      process_ended (Some exit_code)].

(** *** The operators *)

Inductive status := FINISHED | CANCELLED.
Inductive level := INFO | WARNING | ERROR.

(** What [execute] returns, with the messages passed to [self.report]. *)
Definition outcome : Type := status * list (level * str).

(** What the operators ask of the file system and of the host. *)
Record host := mkHost {
  path_exists : str -> bool;             (* os.path.exists *)
  base_paths : list str;                 (* the four fixed candidate paths *)
  project_dirs : list (str * str);       (* directory, and the script path in it *)
  popen : str -> process + str;          (* subprocess.Popen, or [str(e)] *)
  abspath : str -> str;                  (* bpy.path.abspath *)
  basename : str -> str                  (* os.path.basename *)
}.

Definition find_whisperx_script (h : host) : option str :=
  let possible_paths :=
    base_paths h
    ++ map snd (filter (fun d => path_exists h (fst d)) (project_dirs h)) in
  find (path_exists h) possible_paths.

Definition nonempty (s : str) : bool :=
  match s with [] => false | _ :: _ => true end.

(** [WHISPERX_OT_start_service.execute] *)
Definition start_service (h : host) (w : world) : outcome * world :=
  let p := props w in
  if process_running p then
    ((CANCELLED, [(WARNING, lit "Service is already running")]), w)
  else
    let found :=
      if nonempty (script_path p) && path_exists h (script_path p)
      then Some (script_path p, p)
      else match find_whisperx_script h with
           | Some s =>
               Some (s, set_status_message (lit "Found script") (set_script_path s p))
           | None => None
           end in
    match found with
    | None =>
        ((CANCELLED,
          [(ERROR, lit "whisperx_runner.py not found. Please use 'Locate Script' button.")]),
         set_props (set_status_message (lit "Error: Script not found") p) w)
    | Some (whisperx_script, p) =>
        match popen h whisperx_script with
        | inr e =>
            let error_msg := lit "Error starting service: " ++ e in
            ((CANCELLED, [(ERROR, error_msg)]),
             set_props (set_status_message error_msg p) w)
        | inl pr =>
            let p :=
              set_ui_state STATE_PROCESSING
                (set_process_log (lit "Initializing WhisperX service..." ++ NL)
                   (set_status_message (lit "Starting service...")
                      (set_process_running true p))) in
            ((FINISHED, []),
             mkWorld p (Some pr) (Some true) (timers w)
               (trace w ++ [Spawn whisperx_script]))
        end
    end.

(** [for _ in range(n): if poll() is not None: ...; break; time.sleep(0.1)]:
    whether the loop saw the worker gone. *)
Fixpoint wait_exit (n : nat) (pr : process) (tr : list io_action)
  : bool * process * list io_action :=
  match n with
  | O => (false, pr, tr)
  | S k =>
      let '(alive, pr) := poll pr in
      if alive then wait_exit k pr (tr ++ [Sleep 100]) else (true, pr, tr)
  end.

(** The shutdown in progress: the handle, the trace, and the lines given to
    [add_to_log]. *)
Record shutdown := mkShutdown {
  sd_process : process;
  sd_trace : list io_action;
  sd_log : list str
}.

Definition say (line : string) (s : shutdown) : shutdown :=
  mkShutdown (sd_process s) (sd_trace s) (sd_log s ++ [lit line]).

(** Method 1: the exit command. *)
Definition graceful (s : shutdown) : shutdown :=
  if stdin_closed (sd_process s) then s
  else
    let pr := mkProcess (alive_at (sd_process s)) (polls (sd_process s)) true in
    let tr := sd_trace s ++ [Write (lit "exit()" ++ NL); Flush; CloseStdin] in
    let '(gone, pr, tr) := wait_exit 30 pr tr in
    let s := mkShutdown pr tr (sd_log s) in
    if gone then say "Service stopped gracefully" s else s.

(** Method 2: terminate. *)
Definition terminate (s : shutdown) : shutdown :=
  let '(alive, pr) := poll (sd_process s) in
  let s := mkShutdown pr (sd_trace s) (sd_log s) in
  if alive then
    let s := say "Terminating process..." s in
    let '(gone, pr, tr) := wait_exit 20 (sd_process s) (sd_trace s ++ [Terminate]) in
    let s := mkShutdown pr tr (sd_log s) in
    if gone then say "Service terminated" s else s
  else s.

(** Method 3: kill. *)
Definition force_kill (s : shutdown) : shutdown :=
  let '(alive, pr) := poll (sd_process s) in
  let s := mkShutdown pr (sd_trace s) (sd_log s) in
  if alive then
    let s := say "Force killing process..." s in
    let '(alive, pr) := poll (sd_process s) in
    let s := mkShutdown pr (sd_trace s ++ [Kill; Sleep 500]) (sd_log s) in
    if alive then say "Warning: Could not kill process" s
    else say "Service force killed" s
  else s.

(** "Handle process termination" in [WHISPERX_OT_stop_service.execute]. *)
Definition handle_termination (pr : process) (tr : list io_action)
  : list io_action * list str :=
  let '(alive, pr) := poll pr in
  if alive then
    let s := mkShutdown pr tr [lit "Stopping WhisperX service..."] in
    let s := force_kill (terminate (graceful s)) in
    (sd_trace s, sd_log s)
  else (tr, []).

(** [WHISPERX_OT_stop_service.execute].  Exceptions raised by the operating
    system while signalling are not modelled. *)
Definition stop_service (w : world) : outcome * world :=
  let p := props w in
  if negb (process_running p) then
    ((CANCELLED, [(WARNING, lit "No service is running")]), w)
  else
    let p :=
      set_loaded_model (lit "None")
        (set_ui_state STATE_INITIAL
           (set_status_message (lit "Stopping service...")
              (set_process_running false p))) in
    let '(tr, lines) :=
      match whisperx_process w with
      | Some pr => handle_termination pr (trace w)
      | None => (trace w, [])
      end in
    let registered :=
      map add_to_log lines
      ++ match process_thread w with
         | Some true =>
             [add_to_log (lit "Waiting for process thread to finish...");
              cleanup_thread]
         | _ => []
         end in
    let p :=
      set_process_log (process_log p ++ lit "=== Service stopped by user ===" ++ NL)
        (set_status_message (lit "Service stopped") p) in
    ((FINISHED, [(INFO, lit "Service stopped successfully")]),
     mkWorld p None None (timers w ++ registered) tr).

(** [whisperx_process and whisperx_process.poll() is None], with the handle
    after the check. *)
Definition responding (w : world) : bool * option process :=
  match whisperx_process w with
  | Some pr => let '(alive, pr) := poll pr in (alive, Some pr)
  | None => (false, None)
  end.

Definition not_responding (p : WhisperXProperties) : WhisperXProperties :=
  set_ui_state STATE_INITIAL
    (set_process_running false
       (set_status_message (lit "Error: Service not responding") p)).

(** The text of the [ValueError] a closed stream raises. *)
Definition CLOSED_FILE : str := lit "I/O operation on closed file.".

(** [stdin.write(command)] followed by [stdin.flush()].  On a closed stream
    [write] raises [ValueError].  On an open one the calls raise when the
    operating system does not take the data (a broken pipe), which is up to
    the worker: [refused] is the text of that exception, if there is one.
    The result is what the calls add to the trace, or the text of the
    exception; data that is not taken leaves nothing in the trace. *)
Definition send (refused : option str) (pr : process) (command : str)
  : list io_action + str :=
  if stdin_closed pr then inr CLOSED_FILE
  else match refused with
       | Some e => inr e
       | None => inl [Write command; Flush]
       end.

(** [WHISPERX_OT_load_model.execute].  An exception of the write is caught
    by the [except] branch, before any property is assigned. *)
Definition load_model (refused : option str) (w : world) : outcome * world :=
  let p := props w in
  if negb (process_running p) then
    ((CANCELLED, [(WARNING, lit "Service is not running. Start it first.")]), w)
  else
    let '(alive, pr) := responding w in
    match alive, pr with
    | true, Some handle =>
        let model_name := available_models p in
        let command := lit "load-model(" ++ model_name ++ lit ")" ++ NL in
        match send refused handle command with
        | inl written =>
            let p :=
              set_ui_state STATE_PROCESSING
                (set_process_log
                   (process_log p ++ lit "Loading model: " ++ model_name
                      ++ lit "..." ++ NL)
                   (set_status_message (lit "Loading model...") p)) in
            ((FINISHED, []),
             mkWorld p pr (process_thread w) (timers w) (trace w ++ written))
        | inr e =>
            ((CANCELLED, [(ERROR, lit "Error loading model: " ++ e)]),
             mkWorld p pr (process_thread w) (timers w) (trace w))
        end
    | _, _ =>
        ((FINISHED, []),
         mkWorld (not_responding p) pr (process_thread w) (timers w) (trace w))
    end.




(** [WHISPERX_OT_try_again.execute] *)
Definition try_again (filepath : str) (w : world) : outcome * world :=
  let p := props w in
  let p := if nonempty filepath then set_audio_file_path filepath p else p in
  let p :=
    set_status_message (lit "Model '" ++ loaded_model p ++ lit "' loaded")
      (set_ui_state STATE_MODEL_READY p) in
  ((FINISHED, []), set_props p w).

(** [WHISPERX_OT_clear_logs.execute] *)
Definition clear_logs (w : world) : outcome * world :=
  ((FINISHED, []), set_props (set_process_log [] (props w)) w).

(** [WHISPERX_OT_send_to_nla.execute], as far as the properties go.  The
    JSON decoder is library code: [json_loads] gives the decoded value or
    the text of the [JSONDecodeError].  [build] stands for the body of the
    [try] block after decoding, which creates Blender data and reads or
    writes no property. *)
Definition send_to_nla (A : Type) (json_loads : str -> A + str)
    (build : A -> outcome) (w : world) : outcome * world :=
  match json_loads (transcription_output (props w)) with
  | inl data => (build data, w)
  | inr e =>
      ((CANCELLED, [(ERROR, lit "Error processing transcription data: " ++ e)]), w)
  end.

(** *** Observations on what the reader registers *)

(** The raw reads the loop takes for a delimiter. *)
Definition is_delimiter_line (raw : str) : bool :=
  nonempty raw && startswith DELIMITER (strip raw).


(** The texts handed to [update_transcription_output], in order. *)
Fixpoint json_blocks (us : list update) : list str :=
  match us with
  | [] => []
  | update_transcription_output text :: rest => text :: json_blocks rest
  | _ :: rest => json_blocks rest
  end.

(** The lines handed to [add_to_log], in order. *)
Fixpoint logged (us : list update) : list str :=
  match us with
  | [] => []
  | add_to_log line :: rest => line :: logged rest
  | _ :: rest => logged rest
  end.

Definition valid_state (s : Z) : Prop :=
  s = STATE_INITIAL \/ s = STATE_RUNNING \/ s = STATE_MODEL_READY
  \/ s = STATE_PROCESSING \/ s = STATE_TRANSCRIBED.




(** What the status scan can register: a model name, a status text, and the
    switch to [STATE_RUNNING]; never a log line or a JSON block. *)
Definition scan_update (u : update) : Prop :=
  match u with
  | update_loaded_model _ | update_status _ => True
  | update_ui_state s => s = STATE_RUNNING
  | _ => False
  end.

(** What the loop registers for the lines it reads. *)
Definition reader_update (u : update) : Prop :=
  match u with
  | add_to_log _ | update_transcription_output _ => True
  | _ => scan_update u
  end.

Definition is_digit (c : char) : bool := ((48 <=? c) && (c <=? 57))%N.

(** The text of a log that holds the given lines, each ended by a newline. *)
Definition log_text (lines : list str) : str :=
  concat (map (fun line => line ++ NL) lines).

Definition no_newline (line : str) : bool :=
  forallb (fun c => negb (N.eqb c 10)) line.

(** The last [n] elements, [xs[-n:]] for a positive [n]. *)
Definition last_n {A} (n : nat) (xs : list A) : list A :=
  skipn (length xs - n) xs.

(** The lines "from", "from + 1", ... in decimal. *)
Definition numbered (from count : nat) : list str :=
  map (fun i => str_of_int (Z.of_nat i)) (seq from count).

(** A host for the examples: the script lies next to the add-on and the
    worker, once spawned, stays alive. *)
Definition example_host : host :=
  mkHost (fun _ => true) [lit "whisperx_runner.py"] []
    (fun _ => inl (mkProcess (fun _ => true) 0 false))
    (fun path => path) (fun path => path).

(** The world right after a successful start from the defaults. *)
Definition started : world := snd (start_service example_host initial_world).

(** *** Further observations and the panels *)



(** The candidate paths of [find_whisperx_script], in the order tried. *)
Definition possible_paths (h : host) : list str :=
  base_paths h
  ++ map snd (filter (fun d => path_exists h (fst d)) (project_dirs h)).

(** Time spent in [time.sleep], in milliseconds. *)
Fixpoint sleep_total (tr : list io_action) : Z :=
  match tr with
  | [] => 0
  | Sleep ms :: rest => Z.of_nat ms + sleep_total rest
  | _ :: rest => sleep_total rest
  end.

(** The writes and flushes of the exit command. *)
Definition exit_command : list io_action :=
  [Write (lit "exit()" ++ NL); Flush; CloseStdin].

(** [line[:80]] and the like. *)
Definition truncate (n : Z) (line : str) : str := slice line 0 n.

(** The labels [WHISPERX_PT_logs_panel.draw] puts in its box. *)
Definition logs_panel (p : WhisperXProperties) : list str :=
  if nonempty (process_log p) then
    map (truncate 80)
      (filter (fun line => nonempty (strip line))
         (slice_from (split NL (process_log p)) (-15)))
  else [lit "No logs yet"].

Definition SPACE : str := [32%N].

(** The loop of [WHISPERX_PT_output_panel.draw] that breaks the transcript
    into lines: the state is [(lines, current_line)]. *)
Definition wrap_step (st : list str * str) (word : str) : list str * str :=
  let '(lines, current_line) := st in
  if (length (current_line ++ word) <? 60)%nat
  then (lines, current_line ++ word ++ SPACE)
  else (lines ++ [strip current_line], word ++ SPACE).

Definition wrap_transcript (transcript : str) : list str :=
  let '(lines, current_line) :=
    fold_left wrap_step (split_ws transcript) ([], []) in
  if nonempty current_line then lines ++ [strip current_line] else lines.

(** The channel [WHISPERX_OT_send_to_vse.execute] picks for its text
    strips, from the channels of the strips in the sequencer. *)
Definition text_channel (channels : list Z) : Z :=
  fold_left (fun text_channel channel =>
               if (text_channel <=? channel)%Z then (channel + 1)%Z
               else text_channel)
            channels 2%Z.





(** A word as [split] returns them: not empty, no whitespace. *)
Definition is_word (w : str) : bool :=
  nonempty w && forallb (fun c => negb (isspace c)) w.

(** The text of [current_line] while it holds the given words: each word
    with a space after it. *)
Definition spaced (words : list str) : str :=
  concat (map (fun w => w ++ SPACE) words).

(** A mark before a message that cannot be mistaken for a key phrase or a
    delimiter: none of the capitals that begin a key phrase, no equals
    sign. *)
Definition plain_mark (mark : str) : bool :=
  forallb (fun c => negb (existsb (N.eqb c) (lit "MESTDL="))) mark.




End Addon.

(* ================================================================== *)
(** ** What the JSON decoder rejects outright *)
(* ================================================================== *)

Module Json.
Import Py.

(** [json.loads] is library code and is not modelled.  One fact about it is
    used: after skipping JSON whitespace (space, tab, line feed, carriage
    return) the decoder needs a character that can begin a value (a quote,
    a brace, a bracket, a minus sign, a digit, or the first letter of
    [null], [true], [false], [NaN], [Infinity]); otherwise it raises
    [JSONDecodeError], "Expecting value".  [expecting_value text] holds when
    [text] is rejected for that reason. *)
Definition whitespace (c : char) : bool :=
  ((c =? 32) || (c =? 9) || (c =? 10) || (c =? 13))%N.

Fixpoint skip_whitespace (s : str) : str :=
  match s with
  | [] => []
  | c :: s' => if whitespace c then skip_whitespace s' else s
  end.

Definition begins_value (c : char) : bool :=
  ((c =? 34) || (c =? 123) || (c =? 91) || (c =? 45)
   || ((48 <=? c) && (c <=? 57))
   || (c =? 110) || (c =? 116) || (c =? 102) || (c =? 78) || (c =? 73))%N.

Definition expecting_value (text : str) : bool :=
  match skip_whitespace text with
  | [] => true
  | c :: _ => negb (begins_value c)
  end.

End Json.

(* ================================================================== *)
(** ** The transition table of the design document *)
(* ================================================================== *)

Module Table.
Import Py Addon.

(** The events of the table. *)
Inductive event :=
| StartSucceeds
| WorkerReady
| LoadModelIssued
| ModelLoaded
| TranscribeIssued
| JsonBlock
| TryAgain
| StopOrExit.

(** This definition follows the table of the specification, row by row, and
    not the code: the outgoing edge of a state for an event, if any. *)
Definition spec_table (from : Z) (e : event) : option Z :=
  match e with
  | StopOrExit => Some STATE_INITIAL
  | StartSucceeds =>
      if (from =? STATE_INITIAL)%Z then Some STATE_PROCESSING else None
  | WorkerReady =>
      if (from =? STATE_PROCESSING)%Z then Some STATE_RUNNING else None
  | LoadModelIssued =>
      if (from =? STATE_RUNNING)%Z || (from =? STATE_MODEL_READY)%Z
         || (from =? STATE_TRANSCRIBED)%Z
      then Some STATE_PROCESSING else None
  | ModelLoaded =>
      if (from =? STATE_PROCESSING)%Z then Some STATE_MODEL_READY else None
  | TranscribeIssued =>
      if (from =? STATE_MODEL_READY)%Z then Some STATE_PROCESSING else None
  | JsonBlock =>
      if (from =? STATE_PROCESSING)%Z then Some STATE_TRANSCRIBED else None
  | TryAgain =>
      if (from =? STATE_MODEL_READY)%Z || (from =? STATE_TRANSCRIBED)%Z
      then Some STATE_MODEL_READY else None
  end.

(** The specification's reading of an event: follow the edge, or ignore the
    event when the state has no such edge. *)
Definition spec_step (from : Z) (e : option event) : Z :=
  match e with
  | Some e => match spec_table from e with Some to => to | None => from end
  | None => from
  end.

(** The event of the table a registered closure stands for, if it stands
    for one.  The table has its JsonBlock edge for a block that parses
    only, and a block that does not parse leaves the session where it is;
    what parses is decided by the decoder, which is library code: [parses]
    stands for it.  The readiness event is the switch to [STATE_RUNNING]. *)
Definition event_of (parses : str -> bool) (u : update) : option event :=
  match u with
  | update_loaded_model _ => Some ModelLoaded
  | update_transcription_output text =>
      if parses text then Some JsonBlock else None
  | update_ui_state s =>
      if (s =? STATE_RUNNING)%Z then Some WorkerReady else None
  | process_ended _ => Some StopOrExit
  | add_to_log _ | update_status _ | cleanup_thread => None
  end.

(** A decoder as far as the file knows [json.loads]: it rejects at least
    the texts that begin with no value. *)
Definition rejects_non_values (parses : str -> bool) : Prop :=
  forall text, Json.expecting_value text = true -> parses text = false.

End Table.

(* ================================================================== *)
(** ** Facts about the string primitives *)
(* ================================================================== *)

Import Py.


Lemma str_eqb_eq (a b : str) : str_eqb a b = true <-> a = b.
Proof.
  revert b; induction a as [|x a IH]; intros [|y b]; simpl;
    try (split; congruence).
  rewrite andb_true_iff, N.eqb_eq, IH. split.
  - intros [-> ->]; reflexivity.
  - intros E; injection E; auto.
Qed.


Lemma str_eqb_neq (a b : str) : str_eqb a b = false <-> a <> b.
Proof.
  destruct (str_eqb a b) eqn:E.
  - apply str_eqb_eq in E. split; [discriminate | contradiction].
  - split; [|reflexivity]. intros _ H. apply str_eqb_eq in H. congruence.
Qed.

Lemma startswith_app (p s : str) :
  startswith p s = true <-> exists t, s = p ++ t.
Proof.
  revert s; induction p as [|x p IH]; intros s; simpl.
  - split; [exists s; reflexivity | reflexivity].
  - destruct s as [|y s].
    + split; [discriminate | intros [t H]; discriminate].
    + rewrite andb_true_iff, N.eqb_eq, IH. split.
      * intros [-> [t ->]]. exists t; reflexivity.
      * intros [t H]. injection H as -> ->. split; [reflexivity | exists t; reflexivity].
Qed.

Lemma endswith_app (p s : str) :
  endswith p s = true <-> exists t, s = t ++ p.
Proof.
  unfold endswith. rewrite startswith_app. split.
  - intros [t H]. exists (rev t).
    rewrite <- (rev_involutive s), H, rev_app_distr, rev_involutive. reflexivity.
  - intros [t ->]. exists (rev t). apply rev_app_distr.
Qed.

(** A string that starts with [p ++ [a]] and ends with [b], [a <> b], has an
    interior between the two. *)
Lemma wrapped_interior (p : str) (a b : char) (s : str) :
  a <> b ->
  startswith (p ++ [a]) s = true -> endswith [b] s = true ->
  exists inner, s = (p ++ [a]) ++ inner ++ [b].
Proof.
  intros Hab Hs He.
  apply startswith_app in Hs. destruct Hs as [t ->].
  apply endswith_app in He. destruct He as [t' He].
  destruct (list_eq_dec N.eq_dec t []) as [-> | Hne].
  - rewrite app_nil_r in He. apply app_inj_tail in He. destruct He; congruence.
  - rewrite (app_removelast_last 0%N Hne) in He |- *.
    rewrite app_assoc in He. apply app_inj_tail in He. destruct He as [_ ->].
    exists (removelast t). reflexivity.
Qed.

Lemma slice_interior (A : Type) (p inner : list A) (x : A) :
  slice (p ++ inner ++ [x]) (Z.of_nat (length p)) (-1) = inner.
Proof.
  unfold slice, norm_index. rewrite !length_app. simpl length.
  destruct (Z.ltb_spec (Z.of_nat (length p)) 0); [lia|].
  change (-1 <? 0)%Z with true. cbv iota.
  rewrite Z.min_l by lia. rewrite Z.max_r by lia.
  replace (Z.to_nat _) with (length inner) by lia.
  rewrite Nat2Z.id.
  rewrite skipn_app, skipn_all, Nat.sub_diag. simpl.
  rewrite firstn_app, firstn_all, Nat.sub_diag. simpl. apply app_nil_r.
Qed.

(* ================================================================== *)
(** ** The worker's command parser *)
(* ================================================================== *)

Section CommandParser.
Import Runner.

Local Ltac lits := cbv [lit map list_ascii_of_string N_of_ascii N_of_digits] in *.

(** A command that starts with [name(] and ends with [)]: its interior. *)
Lemma call_interior (name : string) (c : str) :
  startswith (lit name ++ [40%N]) c && endswith [41%N] c = true ->
  exists inner, c = (lit name ++ [40%N]) ++ inner ++ [41%N].
Proof.
  rewrite andb_true_iff. intros [Hs He].
  apply (wrapped_interior (lit name) (a:=40%N) (b:=41%N)); [discriminate | assumption..].
Qed.

(** C10.  [parse_command] is a total function of its argument, and its
    five results are told apart by the stripped command [c] alone: the
    result is [("exit", [])] exactly when [c] is [exit()], and
    [("list-models", [])] exactly when [c] is [list-models()]; when [c]
    starts with [load-model(] and ends with [)], it is
    [("load-model", [arg])] with [arg] the stripped interior, and
    [load-model] is returned in no other case; the same holds for
    [transcribe-audio]; every other string gives [(None, [])]. *)
Theorem parse_command_total (command : str) :
  let c := strip command in
  let r := parse_command command in
  (r = (Some (lit "exit"), []) <-> c = lit "exit()")
  /\ (r = (Some (lit "list-models"), []) <-> c = lit "list-models()")
  /\ (startswith (lit "load-model(") c && endswith (lit ")") c = true ->
      exists inner, c = lit "load-model(" ++ inner ++ lit ")"
                    /\ r = (Some (lit "load-model"), [strip inner]))
  /\ (forall args, r = (Some (lit "load-model"), args) ->
      startswith (lit "load-model(") c && endswith (lit ")") c = true)
  /\ (startswith (lit "transcribe-audio(") c && endswith (lit ")") c = true ->
      exists inner, c = lit "transcribe-audio(" ++ inner ++ lit ")"
                    /\ r = (Some (lit "transcribe-audio"), [strip inner]))
  /\ (forall args, r = (Some (lit "transcribe-audio"), args) ->
      startswith (lit "transcribe-audio(") c && endswith (lit ")") c = true)
  /\ (r = (None, []) <->
      c <> lit "exit()" /\ c <> lit "list-models()"
      /\ startswith (lit "load-model(") c && endswith (lit ")") c = false
      /\ startswith (lit "transcribe-audio(") c && endswith (lit ")") c = false).
Proof.
  intros c r. subst r. unfold parse_command. fold c.
  destruct (str_eqb c (lit "exit()")) eqn:E1.
  { apply str_eqb_eq in E1. rewrite E1.
    repeat split; try solve [intros; lits; try discriminate; try congruence].
    intros (H & _). congruence. }
  apply str_eqb_neq in E1.
  destruct (str_eqb c (lit "list-models()")) eqn:E2.
  { apply str_eqb_eq in E2. rewrite E2.
    repeat split; try solve [intros; lits; try discriminate; try congruence].
    intros (_ & H & _). congruence. }
  apply str_eqb_neq in E2.
  destruct (startswith (lit "load-model(") c && endswith (lit ")") c) eqn:E3.
  { destruct (call_interior "load-model" c E3) as [inner Hc].
    assert (Hs : slice c 11 (-1) = inner).
    { rewrite Hc. apply (slice_interior (lit "load-model" ++ [40%N]) inner 41%N). }
    rewrite Hs.
    assert (E4 : startswith (lit "transcribe-audio(") c = false).
    { rewrite Hc. reflexivity. }
    rewrite E4. cbn [andb].
    repeat split; try solve [intros; lits; try discriminate; try congruence].
    - intros _. exists inner. split; [exact Hc | reflexivity].
    - intros (_ & _ & H & _). discriminate. }
  destruct (startswith (lit "transcribe-audio(") c && endswith (lit ")") c) eqn:E4.
  { destruct (call_interior "transcribe-audio" c E4) as [inner Hc].
    assert (Hs : slice c 17 (-1) = inner).
    { rewrite Hc. apply (slice_interior (lit "transcribe-audio" ++ [40%N]) inner 41%N). }
    rewrite Hs.
    repeat split; try solve [intros; lits; try discriminate; try congruence].
    - intros _. exists inner. split; [exact Hc | reflexivity].
    - intros (_ & _ & _ & H). discriminate. }
  repeat split; try solve [intros; lits; try discriminate; try congruence].
Qed.

(** The three kinds of answer on concrete commands. *)
Lemma parse_command_total_witness :
  parse_command (lit "  exit()  ") = (Some (lit "exit"), [])
  /\ parse_command (lit "load-model( tiny.en )")
     = (Some (lit "load-model"), [lit "tiny.en"])
  /\ parse_command (lit "exit") = (None, []).
Proof.
  split; [|split].
  - apply (proj1 (parse_command_total (lit "  exit()  "))). reflexivity.
  - destruct (parse_command_total (lit "load-model( tiny.en )"))
      as (_ & _ & H & _).
    destruct (H eq_refl) as (inner & Hc & Hr). rewrite Hr.
    change (strip (lit "load-model( tiny.en )"))
      with (lit "load-model(" ++ lit " tiny.en " ++ lit ")") in Hc.
    apply app_inv_head, app_inv_tail in Hc. subst inner. reflexivity.
  - destruct (parse_command_total (lit "exit"))
      as (_ & _ & _ & _ & _ & _ & H).
    apply H. repeat split; try reflexivity; discriminate.
Defined.

End CommandParser.

(* ================================================================== *)
(** ** The reader loop: delimiters, capture and the status scan *)
(* ================================================================== *)

Section Reader.
Import Addon.

Lemma json_blocks_app (a b : list update) :
  json_blocks (a ++ b) = json_blocks a ++ json_blocks b.
Proof.
  induction a as [|u a IH]; [reflexivity|].
  destruct u; simpl; rewrite IH; reflexivity.
Qed.

Lemma logged_app (a b : list update) :
  logged (a ++ b) = logged a ++ logged b.
Proof.
  induction a as [|u a IH]; [reflexivity|].
  destruct u; simpl; rewrite IH; reflexivity.
Qed.

Lemma scan_status_kinds (line : str) : Forall scan_update (scan_status line).
Proof.
  unfold scan_status. apply Forall_app. split.
  - destruct (_ && _); [|constructor].
    destruct (search_model line); repeat constructor.
  - repeat (match goal with |- context [if ?b then _ else _] => destruct b end;
            [repeat constructor|]).
    constructor.
Qed.

Lemma scan_status_blocks (line : str) : json_blocks (scan_status line) = [].
Proof.
  pose proof (scan_status_kinds line) as H.
  induction H as [|u us Hu _ IH]; [reflexivity|].
  destruct u; simpl in *; tauto.
Qed.

Lemma scan_status_logged (line : str) : logged (scan_status line) = [].
Proof.
  pose proof (scan_status_kinds line) as H.
  induction H as [|u us Hu _ IH]; [reflexivity|].
  destruct u; simpl in *; tauto.
Qed.

(** The five cases of one loop iteration. *)
Lemma reader_step_empty (r : reader) : reader_step r [] = (r, []).
Proof. reflexivity. Qed.

Lemma is_delimiter_line_true (raw : str) :
  is_delimiter_line raw = true ->
  raw <> [] /\ startswith DELIMITER (strip raw) = true.
Proof.
  unfold is_delimiter_line. rewrite andb_true_iff.
  destruct raw; simpl; intuition congruence.
Qed.

Lemma is_delimiter_line_false (raw : str) :
  raw <> [] -> is_delimiter_line raw = false ->
  startswith DELIMITER (strip raw) = false.
Proof.
  unfold is_delimiter_line. destruct raw; [congruence|]. simpl. auto.
Qed.

Lemma reader_step_close (r : reader) (raw : str) :
  json_capture r = true -> is_delimiter_line raw = true ->
  reader_step r raw =
    (mkReader false [],
     update_transcription_output (join NL (json_lines r)) :: scan_status (strip raw)).
Proof.
  intros Hc Hd. apply is_delimiter_line_true in Hd. destruct Hd as [Hne Hd].
  destruct raw as [|c raw]; [congruence|].
  unfold reader_step, capture_step. rewrite Hd, Hc. reflexivity.
Qed.

Lemma reader_step_open (r : reader) (raw : str) :
  json_capture r = false -> is_delimiter_line raw = true ->
  reader_step r raw = (mkReader true (json_lines r), scan_status (strip raw)).
Proof.
  intros Hc Hd. apply is_delimiter_line_true in Hd. destruct Hd as [Hne Hd].
  destruct raw as [|c raw]; [congruence|].
  unfold reader_step, capture_step. rewrite Hd, Hc. reflexivity.
Qed.

Lemma reader_step_capture (r : reader) (raw : str) :
  json_capture r = true -> raw <> [] -> is_delimiter_line raw = false ->
  reader_step r raw =
    (mkReader true (json_lines r ++ [strip raw]), scan_status (strip raw)).
Proof.
  intros Hc Hne Hd. apply is_delimiter_line_false in Hd; [|assumption].
  destruct raw as [|c raw]; [congruence|].
  unfold reader_step, capture_step. rewrite Hd, Hc. reflexivity.
Qed.

Lemma reader_step_log (r : reader) (raw : str) :
  json_capture r = false -> raw <> [] -> is_delimiter_line raw = false ->
  reader_step r raw = (r, add_to_log (strip raw) :: scan_status (strip raw)).
Proof.
  intros Hc Hne Hd. apply is_delimiter_line_false in Hd; [|assumption].
  destruct raw as [|c raw]; [congruence|].
  unfold reader_step, capture_step. rewrite Hd, Hc. reflexivity.
Qed.

Lemma read_lines_cons (r : reader) (raw : str) (rest : list str) :
  read_lines r (raw :: rest) =
    (fst (read_lines (fst (reader_step r raw)) rest),
     snd (reader_step r raw) ++ snd (read_lines (fst (reader_step r raw)) rest)).
Proof.
  simpl. destruct (reader_step r raw) as [r1 us1]. cbn [fst snd].
  destruct (read_lines r1 rest) as [r2 us2]. reflexivity.
Qed.

Lemma read_lines_app (r : reader) (a b : list str) :
  read_lines r (a ++ b) =
    (fst (read_lines (fst (read_lines r a)) b),
     snd (read_lines r a) ++ snd (read_lines (fst (read_lines r a)) b)).
Proof.
  revert r; induction a as [|raw a IH]; intros r.
  - simpl. destruct (read_lines r b); reflexivity.
  - rewrite <- app_comm_cons, !read_lines_cons, IH. simpl.
    rewrite app_assoc. reflexivity.
Qed.


(** Inside a block: reads that are not delimiters only grow the buffer. *)
Lemma read_lines_body (r : reader) (body : list str) :
  json_capture r = true ->
  Forall (fun raw => is_delimiter_line raw = false) body ->
  fst (read_lines r body)
    = mkReader true (json_lines r ++ map strip (filter nonempty body))
  /\ json_blocks (snd (read_lines r body)) = []
  /\ logged (snd (read_lines r body)) = [].
Proof.
  intros Hc Hb. revert r Hc.
  induction Hb as [|raw body Hd _ IH]; intros r Hc.
  - simpl. rewrite app_nil_r. destruct r; simpl in *; subst; auto.
  - rewrite read_lines_cons. cbn [fst snd].
    rewrite json_blocks_app, logged_app.
    destruct raw as [|c raw'].
    + rewrite reader_step_empty. cbn [fst snd filter nonempty]. apply IH, Hc.
    + assert (Hne : c :: raw' <> []) by discriminate.
      rewrite (reader_step_capture r Hc Hne Hd). cbn [fst snd].
      rewrite scan_status_blocks, scan_status_logged.
      destruct (IH (mkReader true (json_lines r ++ [strip (c :: raw')])) eq_refl)
        as (E1 & E2 & E3).
      rewrite E1, E2, E3. cbn [json_lines filter nonempty map].
      rewrite <- app_assoc. auto.
Qed.



End Reader.

Section Capture.
Import Addon.




(** C6, refuted as stated: a line of 60 equals signs followed by another
    character is not the delimiter, yet it opens capture and, when capture is
    on, closes it and releases the block. *)
Lemma longer_line_toggles_capture :
  let line := DELIMITER ++ lit "x" in
  line <> DELIMITER
  /\ strip line = line
  /\ json_capture (fst (reader_step reader_start line)) = true
  /\ reader_step (mkReader true [lit "[]"]) line
     = (reader_start, [update_transcription_output (lit "[]")]).
Proof.
  repeat split; try reflexivity.
  intros H. apply (f_equal (@length char)) in H. vm_compute in H. discriminate.
Qed.

(** C6, as amended.  The delimiter is 60 equals signs, and a read toggles
    JSON capture exactly when the stripped line starts with the delimiter:
    the delimiter itself toggles, and so does any line that continues after
    it; a line that differs from the delimiter within its first 60
    characters, or is shorter, does not. *)
Theorem capture_toggles_on_delimiter_prefix :
  DELIMITER = repeat 61%N 60
  /\ (forall r raw,
      json_capture (fst (reader_step r raw)) = negb (json_capture r)
      <-> startswith DELIMITER (strip raw) = true)
  /\ (forall r more,
      json_capture (fst (capture_step r (DELIMITER ++ more)))
      = negb (json_capture r)).
Proof.
  split; [reflexivity|]. split.
  - intros r raw. unfold reader_step.
    destruct raw as [|c raw].
    + cbn [fst]. change (strip []) with (@nil char).
      change (startswith DELIMITER []) with false.
      destruct (json_capture r); split; discriminate.
    + unfold capture_step.
      destruct (startswith DELIMITER (strip (c :: raw))), (json_capture r) eqn:Hc;
        cbn [fst json_capture negb]; rewrite ?Hc; split; congruence.
  - intros r more. unfold capture_step.
    assert (H : startswith DELIMITER (DELIMITER ++ more) = true).
    { apply startswith_app. exists more. reflexivity. }
    rewrite H. destruct (json_capture r); reflexivity.
Qed.

(** C2, refuted as stated: a line read while capture is on, here a line of
    the block that mentions a loaded model, is scanned like any other; it
    registers a model update, and delivering it moves the state from
    Processing to ModelReady. *)
Lemma captured_line_changes_state :
  let raws := [DELIMITER ++ NL; lit "Model 'tiny' loaded" ++ NL] in
  let us := snd (read_lines reader_start raws) in
  json_capture (fst (read_lines reader_start [DELIMITER ++ NL])) = true
  /\ us = [update_loaded_model (lit "tiny")]
  /\ ui_state (props started) = STATE_PROCESSING
  /\ ui_state (props (deliver us started)) = STATE_MODEL_READY
  /\ loaded_model (props (deliver us started)) = lit "tiny"
  /\ status_message (props (deliver us started)) = lit "Model 'tiny' loaded".
Proof. repeat split; reflexivity. Qed.

(** C2, as amended.  A non-empty read that is not a delimiter, taken while
    capture is on, is appended (stripped) to the JSON buffer and is neither
    logged nor released as a block; but the status scan runs on it as it
    does outside capture, so it registers whatever the scan finds in it: a
    model name, a status text, the switch to [STATE_RUNNING]. *)
Theorem captured_line_is_buffered_and_scanned (r : reader) (raw : str) :
  json_capture r = true -> raw <> [] -> is_delimiter_line raw = false ->
  fst (reader_step r raw) = mkReader true (json_lines r ++ [strip raw])
  /\ snd (reader_step r raw) = scan_status (strip raw)
  /\ logged (snd (reader_step r raw)) = []
  /\ json_blocks (snd (reader_step r raw)) = []
  /\ Forall scan_update (snd (reader_step r raw))
  /\ snd (reader_step (mkReader false (json_lines r)) raw)
     = add_to_log (strip raw) :: scan_status (strip raw).
Proof.
  intros Hc Hne Hd.
  rewrite (reader_step_capture r Hc Hne Hd). cbn [fst snd].
  rewrite (@reader_step_log (mkReader false (json_lines r)) raw eq_refl Hne Hd).
  repeat split.
  - apply scan_status_logged.
  - apply scan_status_blocks.
  - apply scan_status_kinds.
Qed.

Lemma captured_line_is_buffered_and_scanned_witness :
  let r := mkReader true [lit "["] in
  let raw := lit "  Starting," ++ NL in
  fst (reader_step r raw) = mkReader true [lit "["; lit "Starting,"]
  /\ snd (reader_step r raw) = [update_status (lit "Starting service...")].
Proof.
  intros r raw.
  destruct (@captured_line_is_buffered_and_scanned r raw eq_refl
              ltac:(discriminate) eq_refl) as (H1 & H2 & _).
  split; [rewrite H1 | rewrite H2]; reflexivity.
Defined.

End Capture.

(* ================================================================== *)
(** ** What the registered closures do to the state *)
(* ================================================================== *)

Section Events.
Import Addon Table.

Lemma run_add_to_log_frame (line : str) (p : WhisperXProperties) :
  ui_state (run_add_to_log line p) = ui_state p
  /\ status_message (run_add_to_log line p) = status_message p
  /\ loaded_model (run_add_to_log line p) = loaded_model p
  /\ process_running (run_add_to_log line p) = process_running p
  /\ transcription_output (run_add_to_log line p) = transcription_output p.
Proof. unfold run_add_to_log. destruct (_ <? _)%nat; repeat split. Qed.

Lemma reader_step_updates (r : reader) (raw : str) :
  Forall reader_update (snd (reader_step r raw)).
Proof.
  assert (Hscan : Forall reader_update (scan_status (strip raw))).
  { eapply Forall_impl; [|apply scan_status_kinds].
    intros u; destruct u; simpl; tauto. }
  unfold reader_step. destruct raw as [|c raw]; [constructor|].
  unfold capture_step.
  destruct (startswith _ _), (json_capture r); cbn [snd app];
    repeat (constructor; [exact I|]); exact Hscan.
Qed.

Lemma read_lines_updates (r : reader) (raws : list str) :
  Forall reader_update (snd (read_lines r raws)).
Proof.
  revert r; induction raws as [|raw raws IH]; intros r; [constructor|].
  rewrite read_lines_cons. cbn [snd]. apply Forall_app. split.
  - apply reader_step_updates.
  - apply IH.
Qed.

(** The state a reader closure leaves behind does not depend on the state
    it finds. *)
Lemma reader_update_state (u : update) (w : world) :
  reader_update u ->
  match u with
  | update_loaded_model _ => ui_state (props (run_update u w)) = STATE_MODEL_READY
  | update_transcription_output _ =>
      ui_state (props (run_update u w)) = STATE_TRANSCRIBED
  | update_ui_state s =>
      s = STATE_RUNNING /\ ui_state (props (run_update u w)) = STATE_RUNNING
  | add_to_log _ | update_status _ =>
      ui_state (props (run_update u w)) = ui_state (props w)
  | process_ended _ | cleanup_thread => False
  end.
Proof.
  destruct u; cbn [reader_update scan_update run_update props set_props];
    intros H; try contradiction; try reflexivity.
  - apply run_add_to_log_frame.
  - subst; split; reflexivity.
Qed.

Lemma deliver_app (a b : list update) (w : world) :
  deliver (a ++ b) w = deliver b (deliver a w).
Proof. apply fold_left_app. Qed.

Lemma deliver_valid_state (us : list update) (w : world) :
  Forall reader_update us ->
  valid_state (ui_state (props w)) ->
  valid_state (ui_state (props (deliver us w))).
Proof.
  intros H; revert w; induction H as [|u us Hu _ IH]; intros w Hw; [exact Hw|].
  cbn [deliver fold_left]. apply IH.
  pose proof (@reader_update_state u w Hu) as E.
  unfold valid_state in *.
  destruct u; try contradiction; try (rewrite E; tauto).
  destruct E as [_ E]. rewrite E. tauto.
Qed.

(** C1, refuted as stated.  After a successful start and the line
    "Environment setup complete!" the state is Running, which has no edge
    for ModelLoaded or for a JSON block in the table; yet a line announcing
    a loaded model moves the state to ModelReady, and a JSON block moves it
    to Transcribed. *)
Lemma model_loaded_in_running_state :
  let w := deliver (snd (read_lines reader_start
                           [lit "Environment setup complete!" ++ NL])) started in
  let loaded := snd (reader_step reader_start (lit "Model 'tiny' loaded" ++ NL)) in
  let block := snd (read_lines reader_start
                      [DELIMITER ++ NL; lit "[]" ++ NL; DELIMITER ++ NL]) in
  ui_state (props w) = STATE_RUNNING
  /\ spec_table STATE_RUNNING ModelLoaded = None
  /\ spec_table STATE_RUNNING JsonBlock = None
  /\ In (update_loaded_model (lit "tiny")) loaded
  /\ ui_state (props (deliver loaded w)) = STATE_MODEL_READY
  /\ ui_state (props (deliver loaded w))
     <> spec_step (ui_state (props w)) (Some ModelLoaded)
  /\ block = [update_transcription_output (lit "[]")]
  /\ ui_state (props (deliver block w)) = STATE_TRANSCRIBED
  /\ ui_state (props (deliver block w))
     <> spec_step (ui_state (props w)) (Some JsonBlock).
Proof.
  repeat split; try reflexivity; try discriminate.
  right; left; reflexivity.
Qed.

(** C1, as amended.  Every closure the reader registers for a line writes
    the state of its event whatever the current state is: a loaded model
    gives ModelReady, a JSON block gives Transcribed, the worker's readiness
    gives Running, and the process exit gives Initial; log lines and status
    texts leave the state as it is.  When the current state is Processing,
    the state written is the one the table gives, except for a JSON block
    that does not parse, whatever the decoder accepts: the table has no edge
    for it and the code moves to Transcribed all the same; this is so for
    every block that begins with no JSON value.  The state never leaves the
    five states of the table. *)
Theorem reader_updates_overwrite_state :
  (forall r raws u w,
      In u (snd (read_lines r raws)) ->
      match u with
      | update_loaded_model _ =>
          ui_state (props (run_update u w)) = STATE_MODEL_READY
      | update_transcription_output _ =>
          ui_state (props (run_update u w)) = STATE_TRANSCRIBED
      | update_ui_state s =>
          s = STATE_RUNNING /\ ui_state (props (run_update u w)) = STATE_RUNNING
      | add_to_log _ | update_status _ =>
          ui_state (props (run_update u w)) = ui_state (props w)
      | process_ended _ | cleanup_thread => False
      end)
  /\ (forall parses r raws u w,
      In u (snd (read_lines r raws)) ->
      ui_state (props w) = STATE_PROCESSING ->
      (ui_state (props (run_update u w))
       = spec_step STATE_PROCESSING (event_of parses u)
       <-> forall text, u = update_transcription_output text -> parses text = true))
  /\ (forall parses text w,
      rejects_non_values parses ->
      Json.expecting_value text = true ->
      ui_state (props w) = STATE_PROCESSING ->
      ui_state (props (run_update (update_transcription_output text) w))
      = STATE_TRANSCRIBED
      /\ spec_step STATE_PROCESSING (event_of parses (update_transcription_output text))
         = STATE_PROCESSING)
  /\ (forall parses exit_code w,
      ui_state (props (run_update (process_ended exit_code) w)) = STATE_INITIAL
      /\ spec_step (ui_state (props w)) (event_of parses (process_ended exit_code))
         = STATE_INITIAL)
  /\ (forall r raws w,
      valid_state (ui_state (props w)) ->
      valid_state (ui_state (props (deliver (snd (read_lines r raws)) w)))).
Proof.
  assert (Hin : forall r raws u, In u (snd (read_lines r raws)) -> reader_update u).
  { intros r raws u. apply Forall_forall, read_lines_updates. }
  split; [|split; [|split; [|split]]].
  - intros r raws u w Hu. apply reader_update_state. eapply Hin, Hu.
  - intros parses r raws u w Hu Hw.
    pose proof (@reader_update_state u w (Hin _ _ _ Hu)) as E.
    destruct u; try contradiction; cbn [event_of spec_step].
    + split; [intros _ text H; discriminate H | intros _; rewrite E; exact Hw].
    + split; [intros _ text H; discriminate H | intros _; rewrite E; reflexivity].
    + destruct (parses json_text) eqn:P.
      * split; [intros _ text H; injection H as <-; exact P
               | intros _; rewrite E; reflexivity].
      * split.
        -- intros H. rewrite E in H. vm_compute in H. discriminate H.
        -- intros H. specialize (H json_text eq_refl). congruence.
    + split; [intros _ text H; discriminate H | intros _; rewrite E; exact Hw].
    + destruct E as [-> E].
      split; [intros _ text H; discriminate H | intros _; rewrite E; reflexivity].
  - intros parses text w Hparses Hbad Hw. split; [reflexivity|].
    cbn [event_of]. rewrite (Hparses text Hbad). reflexivity.
  - intros parses exit_code w. split; [|reflexivity].
    simpl. unfold run_process_ended.
    destruct exit_code as [c|]; [destruct (c =? 0)%Z|]; reflexivity.
  - intros r raws w. apply deliver_valid_state, read_lines_updates.
Qed.

(** With a decoder that takes every text that begins with a JSON value: a
    loaded model in Processing follows the table; the block "oops" in
    Processing does not; a loaded model before any start gives ModelReady. *)
Lemma reader_updates_overwrite_state_witness :
  let parses := fun text => negb (Json.expecting_value text) in
  ui_state (props (run_update (update_loaded_model (lit "tiny")) started))
  = spec_step STATE_PROCESSING (Some ModelLoaded)
  /\ (ui_state (props (run_update (update_transcription_output (lit "oops")) started))
      = STATE_TRANSCRIBED
      /\ spec_step STATE_PROCESSING
           (event_of parses (update_transcription_output (lit "oops")))
         = STATE_PROCESSING)
  /\ ui_state (props (run_update (update_loaded_model (lit "tiny")) initial_world))
     = STATE_MODEL_READY.
Proof.
  intros parses.
  destruct reader_updates_overwrite_state as (Hany & Hproc & Hbad & _).
  split; [|split].
  - apply (proj2 (Hproc parses reader_start [lit "Model 'tiny' loaded" ++ NL]
                    (update_loaded_model (lit "tiny")) started
                    ltac:(right; left; reflexivity) eq_refl)).
    intros text H. discriminate H.
  - apply (Hbad parses (lit "oops") started).
    + intros text H. unfold parses. rewrite H. reflexivity.
    + reflexivity.
    + reflexivity.
  - apply (Hany reader_start [lit "Model 'tiny' loaded" ++ NL]
             (update_loaded_model (lit "tiny")) initial_world).
    right; left; reflexivity.
Defined.

End Events.

(* ================================================================== *)
(** ** A completed JSON block *)
(* ================================================================== *)

Section Blocks.
Import Addon.

(** C5, refuted as stated.  The block between the two delimiters is the
    text [oops], which no JSON decoder accepts; delivering it in state
    Processing stores it as the transcription output, announces a complete
    transcription and moves the state to Transcribed. *)
Lemma malformed_block_is_transcribed :
  let raws := [DELIMITER ++ NL; lit "oops" ++ NL; DELIMITER ++ NL] in
  let w := deliver (snd (read_lines reader_start raws)) started in
  Json.expecting_value (lit "oops") = true
  /\ json_blocks (snd (read_lines reader_start raws)) = [lit "oops"]
  /\ ui_state (props started) = STATE_PROCESSING
  /\ ui_state (props w) = STATE_TRANSCRIBED
  /\ ui_state (props w) <> STATE_PROCESSING
  /\ transcription_output (props w) = lit "oops"
  /\ status_message (props w) = lit "Transcription complete".
Proof. repeat split; try reflexivity. discriminate. Qed.

(** C5, as amended.  A completed JSON block is not decoded when it arrives:
    whatever its text, valid JSON or not, the text becomes the transcription
    output, the status becomes "Transcription complete" and the state
    becomes Transcribed, while the session goes on (running flag, process
    handle, reader thread, loaded model, log, pending closures and the
    trace of actions on the worker are untouched).  A text that does not
    decode is found out only by the operator that uses the output: it
    reports an error and cancels, and changes nothing. *)
Theorem json_block_is_stored_undecoded :
  (forall text w,
      let w' := run_update (update_transcription_output text) w in
      ui_state (props w') = STATE_TRANSCRIBED
      /\ transcription_output (props w') = text
      /\ status_message (props w') = lit "Transcription complete"
      /\ process_running (props w') = process_running (props w)
      /\ loaded_model (props w') = loaded_model (props w)
      /\ process_log (props w') = process_log (props w)
      /\ whisperx_process w' = whisperx_process w
      /\ process_thread w' = process_thread w
      /\ timers w' = timers w
      /\ trace w' = trace w)
  /\ (forall (A : Type) (json_loads : str -> A + str) (build : A -> outcome) w e,
      json_loads (transcription_output (props w)) = inr e ->
      send_to_nla json_loads build w
      = ((CANCELLED, [(ERROR, lit "Error processing transcription data: " ++ e)]), w)).
Proof.
  split.
  - intros text w. repeat split.
  - intros A json_loads build w e H. unfold send_to_nla. rewrite H. reflexivity.
Qed.

(** The malformed block again, then the operator, with a decoder that
    rejects at least the texts the JSON decoder rejects outright. *)
Lemma json_block_is_stored_undecoded_witness :
  let json_loads := fun text : str =>
    if Json.expecting_value text then inr (lit "Expecting value") else inl tt in
  let w := run_update (update_transcription_output (lit "oops")) started in
  ui_state (props w) = STATE_TRANSCRIBED
  /\ send_to_nla json_loads (fun _ => (FINISHED, [])) w
     = ((CANCELLED,
         [(ERROR, lit "Error processing transcription data: Expecting value")]), w).
Proof.
  intros json_loads w.
  destruct json_block_is_stored_undecoded as [Hstore Hsend].
  split.
  - apply (Hstore (lit "oops") started).
  - apply (Hsend unit json_loads (fun _ => (FINISHED, [])) w (lit "Expecting value")).
    reflexivity.
Defined.

End Blocks.

(* ================================================================== *)
(** ** Progress markers *)
(* ================================================================== *)

Section Progress.
Import Addon.

Lemma contains_absent_head (c : char) (needle s : str) :
  forallb (fun x => negb (N.eqb c x)) s = true ->
  contains (c :: needle) s = false.
Proof.
  induction s as [|x s IH]; [reflexivity|].
  cbn [forallb]. rewrite andb_true_iff, negb_true_iff. intros [Hx Hs].
  cbn [contains startswith]. rewrite Hx, (IH Hs). reflexivity.
Qed.

Lemma digit_not_above (c x : char) :
  (57 < c)%N -> is_digit x = true -> negb (N.eqb c x) = true.
Proof.
  unfold is_digit. rewrite andb_true_iff, !N.leb_le, negb_true_iff, N.eqb_neq. lia.
Qed.

(** A key phrase that begins with a letter (or any character after the
    digits) missing from [progress=] does not occur in a progress marker. *)
Lemma progress_has_no_phrase (needle digits : str) :
  match needle with
  | c :: _ => (57 <? c)%N && forallb (fun x => negb (N.eqb c x)) (lit "progress=")
  | [] => false
  end = true ->
  forallb is_digit digits = true ->
  contains needle (lit "progress=" ++ digits) = false.
Proof.
  destruct needle as [|c needle]; [discriminate|].
  rewrite andb_true_iff, N.ltb_lt. intros [Hc Hp] Hd.
  apply contains_absent_head. rewrite forallb_app.
  apply andb_true_iff. split; [exact Hp|].
  apply forallb_forall. intros x Hx.
  apply digit_not_above; [exact Hc|].
  rewrite forallb_forall in Hd. apply Hd, Hx.
Qed.

(** C7, refuted as stated.  The read [progress=50] outside capture
    registers one closure, the log line; delivering it leaves the status
    text as it was, and the text does not mention 50. *)
Lemma progress_line_emits_no_progress :
  let us := snd (reader_step reader_start (lit "progress=50" ++ NL)) in
  us = [add_to_log (lit "progress=50")]
  /\ status_message (props started) = lit "Starting service..."
  /\ status_message (props (deliver us started)) = lit "Starting service..."
  /\ contains (lit "50") (status_message (props (deliver us started))) = false.
Proof. repeat split; reflexivity. Qed.

(** C7, as amended.  A read whose stripped line is [progress=] followed by
    decimal digits, taken outside capture, is written to the log and
    nothing else: the loop registers the log line only, and delivering it
    changes neither the status text nor the state. *)
Theorem progress_line_is_only_logged (r : reader) (raw digits : str) (w : world) :
  json_capture r = false ->
  digits <> [] -> forallb is_digit digits = true ->
  strip raw = lit "progress=" ++ digits ->
  reader_step r raw = (r, [add_to_log (lit "progress=" ++ digits)])
  /\ status_message (props (deliver (snd (reader_step r raw)) w))
     = status_message (props w)
  /\ ui_state (props (deliver (snd (reader_step r raw)) w)) = ui_state (props w).
Proof.
  intros Hc _ Hd Hs.
  assert (Hstep : reader_step r raw = (r, [add_to_log (lit "progress=" ++ digits)])).
  { unfold reader_step. destruct raw as [|c raw]; [discriminate Hs|].
    rewrite Hs. unfold capture_step.
    change (startswith DELIMITER (lit "progress=" ++ digits)) with false.
    rewrite Hc. cbv iota. unfold scan_status.
    rewrite !progress_has_no_phrase by (reflexivity || exact Hd).
    reflexivity. }
  rewrite Hstep. split; [reflexivity|].
  cbn [snd deliver fold_left run_update props set_props].
  destruct (run_add_to_log_frame (lit "progress=" ++ digits) (props w))
    as (E1 & E2 & _). auto.
Qed.

Lemma progress_line_is_only_logged_witness :
  reader_step reader_start (lit "progress=100" ++ NL)
  = (reader_start, [add_to_log (lit "progress=100")])
  /\ status_message
       (props (deliver (snd (reader_step reader_start (lit "progress=100" ++ NL)))
                 started))
     = lit "Starting service...".
Proof.
  destruct (@progress_line_is_only_logged reader_start (lit "progress=100" ++ NL)
              (lit "100") started eq_refl ltac:(discriminate) eq_refl eq_refl)
    as (H1 & H2 & _).
  split; [exact H1 | exact H2].
Defined.

End Progress.

(* ================================================================== *)
(** ** Starting and stopping the service *)
(* ================================================================== *)

Section Service.
Import Addon.

Lemma start_service_finished (h : host) (w : world) :
  fst (fst (start_service h w)) = FINISHED ->
  process_running (props (snd (start_service h w))) = true.
Proof.
  unfold start_service.
  destruct (process_running (props w)); [discriminate|].
  destruct (nonempty (script_path (props w)) && path_exists h (script_path (props w))).
  - destruct (popen h (script_path (props w))); [reflexivity | discriminate].
  - destruct (find_whisperx_script h) as [s|]; [|discriminate].
    destruct (popen h s); [reflexivity | discriminate].
Qed.

Lemma deliver_process_running (us : list update) (w : world) :
  Forall reader_update us ->
  process_running (props (deliver us w)) = process_running (props w).
Proof.
  intros H; revert w; induction H as [|u us Hu _ IH]; intros w; [reflexivity|].
  cbn [deliver fold_left]. fold (deliver us (run_update u w)). rewrite IH.
  destruct u; try contradiction; try reflexivity.
  apply run_add_to_log_frame.
Qed.

(** C8.  While a session is running a start request is cancelled with the
    warning "Service is already running" and the world (properties,
    process handle, thread, pending closures, trace of actions) is left as
    it was.  In particular, after a start that succeeded, a second start is
    cancelled in the same way, also after any output of the worker has been
    read and delivered in between, and no second worker is spawned. *)
Theorem start_rejected_while_running :
  (forall h w,
      process_running (props w) = true ->
      start_service h w
      = ((CANCELLED, [(WARNING, lit "Service is already running")]), w))
  /\ (forall h1 h2 w r raws,
      fst (fst (start_service h1 w)) = FINISHED ->
      let w1 := deliver (snd (read_lines r raws)) (snd (start_service h1 w)) in
      start_service h2 w1
      = ((CANCELLED, [(WARNING, lit "Service is already running")]), w1)).
Proof.
  assert (Hguard : forall h w,
             process_running (props w) = true ->
             start_service h w
             = ((CANCELLED, [(WARNING, lit "Service is already running")]), w)).
  { intros h w H. unfold start_service. rewrite H. reflexivity. }
  split; [exact Hguard|].
  intros h1 h2 w r raws Hfin w1. apply Hguard. unfold w1.
  rewrite deliver_process_running by apply read_lines_updates.
  apply start_service_finished, Hfin.
Qed.

Lemma start_rejected_while_running_witness :
  fst (fst (start_service example_host initial_world)) = FINISHED
  /\ start_service example_host started
     = ((CANCELLED, [(WARNING, lit "Service is already running")]), started)
  /\ trace (snd (start_service example_host started))
     = [Spawn (lit "whisperx_runner.py")].
Proof.
  destruct start_rejected_while_running as [Hguard _].
  split; [reflexivity|].
  rewrite (Hguard example_host started eq_refl).
  split; reflexivity.
Defined.

Lemma stop_service_stops (w : world) :
  process_running (props (snd (stop_service w))) = false.
Proof.
  unfold stop_service.
  destruct (process_running (props w)) eqn:H; cbn [negb]; [|exact H].
  destruct (match whisperx_process w with
            | Some pr => handle_termination pr (trace w)
            | None => (trace w, [])
            end) as [tr lines].
  reflexivity.
Qed.

(** C9.  Stopping when no session is running is cancelled with the warning
    "No service is running", which is a report and not an exception, and
    the world is left as it was: state, loaded model, log and every other
    property, the pending closures, and the trace of actions on the worker
    (nothing is written or signalled).  Hence a stop that follows a stop
    changes nothing. *)
Theorem stop_when_stopped_is_noop :
  (forall w,
      process_running (props w) = false ->
      stop_service w = ((CANCELLED, [(WARNING, lit "No service is running")]), w))
  /\ (forall w,
      let w1 := snd (stop_service w) in
      stop_service w1 = ((CANCELLED, [(WARNING, lit "No service is running")]), w1)).
Proof.
  assert (Hguard : forall w,
             process_running (props w) = false ->
             stop_service w
             = ((CANCELLED, [(WARNING, lit "No service is running")]), w)).
  { intros w H. unfold stop_service. rewrite H. reflexivity. }
  split; [exact Hguard|].
  intros w w1. apply Hguard, stop_service_stops.
Qed.

Lemma stop_when_stopped_is_noop_witness :
  stop_service initial_world
  = ((CANCELLED, [(WARNING, lit "No service is running")]), initial_world)
  /\ fst (fst (stop_service started)) = FINISHED
  /\ snd (stop_service (snd (stop_service started))) = snd (stop_service started).
Proof.
  destruct stop_when_stopped_is_noop as [Hguard Htwice].
  split; [apply (Hguard initial_world eq_refl)|].
  split; [reflexivity|].
  rewrite (Htwice started). reflexivity.
Defined.

End Service.

(* ================================================================== *)
(** ** The log *)
(* ================================================================== *)

Section Log.
Import Addon.

Lemma split_go_line (line rest cur : str) :
  no_newline line = true ->
  split_go NL (line ++ NL ++ rest) 0 cur
  = (rev cur ++ line) :: split_go NL rest 0 [].
Proof.
  revert cur; induction line as [|c line IH]; intros cur H.
  - cbn. rewrite app_nil_r. reflexivity.
  - cbn [no_newline forallb] in H. apply andb_true_iff in H. destruct H as [Hc H].
    apply negb_true_iff in Hc.
    change ((c :: line) ++ NL ++ rest) with (c :: (line ++ NL ++ rest)).
    cbn [split_go]. change (startswith NL (c :: line ++ NL ++ rest))
      with (N.eqb 10 c && true).
    rewrite N.eqb_sym, Hc. cbn [andb].
    rewrite (IH (c :: cur) H). cbn [rev]. rewrite <- app_assoc. reflexivity.
Qed.

Lemma split_log_text (lines : list str) (rest : str) :
  forallb no_newline lines = true ->
  split NL (log_text lines ++ rest) = lines ++ split NL rest.
Proof.
  induction lines as [|line lines IH]; intros H; [reflexivity|].
  cbn [forallb] in H. apply andb_true_iff in H. destruct H as [Hl H].
  unfold split, log_text in *. cbn [map concat].
  rewrite <- !app_assoc. rewrite (@split_go_line line _ [] Hl). cbn [rev app].
  rewrite (IH H). reflexivity.
Qed.

Lemma join_log_text (lines : list str) :
  join NL (lines ++ [[]]) = log_text lines.
Proof.
  induction lines as [|line lines IH]; [reflexivity|].
  cbn [app join]. destruct (lines ++ [[]]) as [|x xs] eqn:E.
  - destruct lines; discriminate.
  - rewrite IH. unfold log_text. cbn [map concat]. rewrite <- app_assoc. reflexivity.
Qed.

Lemma last_n_snoc (A : Type) (n : nat) (xs : list A) (x : A) :
  last_n (S n) (last_n (S n) xs ++ [x]) = last_n (S n) (xs ++ [x]).
Proof.
  unfold last_n. rewrite !length_app, length_skipn. cbn [length].
  destruct (Nat.le_gt_cases (length xs) (S n)) as [Hle | Hgt].
  - replace (length xs - S n) with 0 by lia. cbn [skipn].
    rewrite Nat.sub_0_r. reflexivity.
  - rewrite (skipn_app (length xs + 1 - S n) xs).
    replace (length xs + 1 - S n - length xs) with 0 by lia.
    replace (length xs - (length xs - S n) + 1 - S n) with 1 by lia.
    rewrite skipn_app, length_skipn, skipn_skipn.
    replace (1 - (length xs - (length xs - S n))) with 0 by lia.
    cbn [skipn]. f_equal. f_equal. lia.
Qed.

(** One [add_to_log] on a log of at most 99 complete lines. *)
Lemma run_add_to_log_text (lines : list str) (line : str) (p : WhisperXProperties) :
  process_log p = log_text lines ->
  forallb no_newline lines = true -> no_newline line = true ->
  length lines <= 99 ->
  process_log (run_add_to_log line p) = log_text (last_n 99 (lines ++ [line])).
Proof.
  intros Hlog Hls Hl Hlen. unfold run_add_to_log. rewrite Hlog.
  assert (Htext : log_text lines ++ line ++ NL = log_text (lines ++ [line])).
  { unfold log_text. rewrite map_app, concat_app. cbn. rewrite app_nil_r. reflexivity. }
  rewrite Htext.
  assert (Hall : forallb no_newline (lines ++ [line]) = true).
  { rewrite forallb_app, Hls. cbn. rewrite Hl. reflexivity. }
  pose proof (split_log_text (lines ++ [line]) [] Hall) as Hsplit.
  rewrite app_nil_r in Hsplit. rewrite Hsplit.
  change (split NL []) with [@nil char].
  rewrite !length_app. cbn [length].
  unfold last_n. rewrite length_app. cbn [length].
  destruct (Nat.ltb_spec 100 (length lines + 1 + 1)) as [Hlong | Hshort].
  - cbn [process_log set_process_log].
    unfold slice_from, norm_index. rewrite !length_app. cbn [length].
    change (-100 <? 0)%Z with true. cbv iota.
    rewrite skipn_app. rewrite length_app. cbn [length].
    replace (Z.to_nat _) with (length lines + 1 - 99) by lia.
    replace (length lines + 1 - 99 - (length lines + 1)) with 0 by lia.
    cbn [skipn]. apply join_log_text.
  - cbn [process_log set_process_log].
    replace (length lines + 1 - 99) with 0 by lia. reflexivity.
Qed.

Lemma last_n_length (A : Type) (n : nat) (xs : list A) : length (last_n n xs) <= n.
Proof. unfold last_n. rewrite length_skipn. lia. Qed.

Lemma last_n_no_newline (n : nat) (lines : list str) :
  forallb no_newline lines = true -> forallb no_newline (last_n n lines) = true.
Proof.
  intros H. apply forallb_forall. intros x Hx.
  rewrite forallb_forall in H. apply H.
  unfold last_n in Hx.
  rewrite <- (firstn_skipn (length lines - n) lines). apply in_or_app. right. exact Hx.
Qed.

(** C4, where the code departs from it.  On a log that holds at most 99
    complete lines (the empty log, or the log right after a start), after
    any sequence of [add_to_log] closures for lines without a newline, the
    log holds the last 99 of all its lines, oldest first, each ended by a
    newline; the pieces between its newlines are those lines and one empty
    piece at the end.  The code keeps the last hundred pieces and so counts
    the empty piece as a line: of a hundred lines appended to the empty
    log, the first is already gone. *)
Theorem add_to_log_keeps_99_lines (before lines : list str) (w : world) :
  process_log (props w) = log_text before ->
  length before <= 99 ->
  forallb no_newline (before ++ lines) = true ->
  process_log (props (deliver (map add_to_log lines) w))
  = log_text (last_n 99 (before ++ lines))
  /\ split NL (process_log (props (deliver (map add_to_log lines) w)))
     = last_n 99 (before ++ lines) ++ [[]].
Proof.
  intros Hw Hlen Hls.
  assert (Hlog : process_log (props (deliver (map add_to_log lines) w))
                 = log_text (last_n 99 (before ++ lines))).
  { induction lines as [|line lines IH] using rev_ind.
    - rewrite app_nil_r. unfold last_n.
      replace (length before - 99) with 0 by lia. exact Hw.
    - rewrite app_assoc in Hls |- *.
      rewrite forallb_app in Hls. apply andb_true_iff in Hls. destruct Hls as [Hls Hl].
      cbn [forallb] in Hl. rewrite andb_true_r in Hl.
      rewrite map_app, deliver_app. cbn [map deliver fold_left run_update props set_props].
      rewrite (@run_add_to_log_text (last_n 99 (before ++ lines)) line _ (IH Hls)
                 (last_n_no_newline 99 (before ++ lines) Hls) Hl
                 (last_n_length 99 (before ++ lines))).
      rewrite last_n_snoc. reflexivity. }
  split; [exact Hlog|].
  rewrite Hlog.
  pose proof (split_log_text (last_n 99 (before ++ lines)) []
                (last_n_no_newline 99 (before ++ lines) Hls)) as H.
  rewrite app_nil_r in H. exact H.
Qed.

(** A hundred lines "1" to "100" on the empty log: the log holds "2" to
    "100".  The same after a start: the line of the start and the line "1"
    are gone.  On that trimmed log, two load-model commands, which append
    to the log directly, leave 101 lines in it. *)
Lemma add_to_log_keeps_99_lines_witness :
  process_log (props (deliver (map add_to_log (numbered 1 100)) initial_world))
  = log_text (numbered 2 99)
  /\ process_log (props (deliver (map add_to_log (numbered 1 100)) started))
     = log_text (numbered 2 99)
  /\ length (split NL (process_log
       (props (snd (load_model None (snd (load_model None
          (deliver (map add_to_log (numbered 1 100)) started))))))))
     = 102.
Proof.
  split; [|split].
  - apply (proj1 (@add_to_log_keeps_99_lines [] (numbered 1 100) initial_world
                    eq_refl ltac:(cbn; lia) eq_refl)).
  - apply (proj1 (@add_to_log_keeps_99_lines [lit "Initializing WhisperX service..."]
                    (numbered 1 100) started eq_refl ltac:(cbn; lia) eq_refl)).
  - vm_compute. reflexivity.
Defined.

End Log.

(* ================================================================== *)
(** ** The shutdown ladder of the stop operator *)
(* ================================================================== *)

Section Shutdown.
Import Addon.

Lemma sleep_total_app (a b : list io_action) :
  (sleep_total (a ++ b) = sleep_total a + sleep_total b)%Z.
Proof.
  induction a as [|x a IH]; [reflexivity|].
  destruct x; cbn [app sleep_total]; rewrite IH; lia.
Qed.

Lemma sleep_total_repeat (ms n : nat) :
  (sleep_total (repeat (Sleep ms) n) = Z.of_nat ms * Z.of_nat n)%Z.
Proof. induction n as [|n IH]; cbn [repeat sleep_total]; lia. Qed.

(** The polling loop sleeps once per check that found the worker alive. *)
Lemma wait_exit_shape (n : nat) (pr : process) (tr : list io_action) :
  exists k,
    k <= n
    /\ snd (wait_exit n pr tr) = tr ++ repeat (Sleep 100) k
    /\ alive_at (snd (fst (wait_exit n pr tr))) = alive_at pr
    /\ stdin_closed (snd (fst (wait_exit n pr tr))) = stdin_closed pr
    /\ polls pr <= polls (snd (fst (wait_exit n pr tr))).
Proof.
  revert pr tr; induction n as [|n IH]; intros pr tr.
  - exists 0. cbn. rewrite app_nil_r. auto.
  - cbn [wait_exit]. unfold poll.
    destruct (alive_at pr (polls pr)).
    + destruct (IH (mkProcess (alive_at pr) (S (polls pr)) (stdin_closed pr))
                  (tr ++ [Sleep 100])) as (k & Hk & Ht & Ha & Hc & Hp).
      exists (S k). rewrite Ht, Ha, Hc. cbn [alive_at stdin_closed polls] in *.
      rewrite <- app_assoc. cbn [repeat app]. repeat split; auto; lia.
    + exists 0. cbn. rewrite app_nil_r. repeat split; auto; lia.
Qed.

Lemma wait_exit_alive (n : nat) (pr : process) (tr : list io_action) :
  (forall i, i < n -> alive_at pr (polls pr + i) = true) ->
  wait_exit n pr tr
  = (false, mkProcess (alive_at pr) (polls pr + n) (stdin_closed pr),
     tr ++ repeat (Sleep 100) n).
Proof.
  revert pr tr; induction n as [|n IH]; intros pr tr H.
  - cbn. rewrite Nat.add_0_r, app_nil_r. destruct pr; reflexivity.
  - cbn [wait_exit]. unfold poll.
    rewrite <- (Nat.add_0_r (polls pr)) at 1. rewrite (H 0) by lia.
    rewrite IH.
    + cbn [alive_at polls stdin_closed]. rewrite <- app_assoc. cbn [repeat app].
      replace (S (polls pr) + n) with (polls pr + S n) by lia. reflexivity.
    + intros i Hi. cbn [alive_at polls].
      replace (S (polls pr) + i) with (polls pr + S i) by lia. apply H. lia.
Qed.

Lemma wait_exit_gone (n j : nat) (pr : process) (tr : list io_action) :
  j < n ->
  (forall i, i < j -> alive_at pr (polls pr + i) = true) ->
  alive_at pr (polls pr + j) = false ->
  wait_exit n pr tr
  = (true, mkProcess (alive_at pr) (polls pr + j + 1) (stdin_closed pr),
     tr ++ repeat (Sleep 100) j).
Proof.
  revert j pr tr; induction n as [|n IH]; intros j pr tr Hj Halive Hdead; [lia|].
  cbn [wait_exit]. unfold poll. destruct j as [|j].
  - rewrite Nat.add_0_r in Hdead. rewrite Hdead.
    cbn [repeat]. rewrite app_nil_r, Nat.add_0_r, Nat.add_1_r. reflexivity.
  - rewrite <- (Nat.add_0_r (polls pr)) at 1. rewrite (Halive 0) by lia.
    rewrite (IH j).
    + cbn [alive_at polls stdin_closed]. rewrite <- app_assoc. cbn [repeat app].
      replace (S (polls pr) + j + 1) with (polls pr + S j + 1) by lia. reflexivity.
    + lia.
    + intros i Hi. cbn [alive_at polls].
      replace (S (polls pr) + i) with (polls pr + S i) by lia. apply Halive. lia.
    + cbn [alive_at polls].
      replace (S (polls pr) + j) with (polls pr + S j) by lia. exact Hdead.
Qed.

(** The three methods, one by one: what each adds to the trace, and that
    none of them changes the worker's own behaviour. *)
Lemma graceful_shape (s : shutdown) :
  exists g,
    sd_trace (graceful s) = sd_trace s ++ g
    /\ (g = [] \/ exists n, n <= 30 /\ g = exit_command ++ repeat (Sleep 100) n)
    /\ (stdin_closed (sd_process s) = true -> g = [])
    /\ alive_at (sd_process (graceful s)) = alive_at (sd_process s)
    /\ polls (sd_process s) <= polls (sd_process (graceful s)).
Proof.
  unfold graceful. destruct (stdin_closed (sd_process s)) eqn:Hc.
  - exists []. rewrite app_nil_r. auto.
  - set (pr := mkProcess _ _ true). set (tr := sd_trace s ++ _).
    destruct (wait_exit_shape 30 pr tr) as (k & Hk & Ht & Ha & _ & Hp).
    destruct (wait_exit 30 pr tr) as [[gone pr2] tr2]. cbn [fst snd] in *.
    exists (exit_command ++ repeat (Sleep 100) k).
    assert (E : sd_trace s ++ exit_command ++ repeat (Sleep 100) k = tr2).
    { rewrite Ht. unfold tr, exit_command. rewrite <- app_assoc. reflexivity. }
    destruct gone; cbn [say sd_trace sd_process]; rewrite E;
      (split; [reflexivity|]); (split; [right; exists k; auto|]);
      (split; [discriminate|]); auto.
Qed.

Lemma terminate_shape (s : shutdown) :
  exists t,
    sd_trace (terminate s) = sd_trace s ++ t
    /\ (t = [] \/ exists n, n <= 20 /\ t = Terminate :: repeat (Sleep 100) n)
    /\ (t = [] <-> alive_at (sd_process s) (polls (sd_process s)) = false)
    /\ alive_at (sd_process (terminate s)) = alive_at (sd_process s)
    /\ polls (sd_process s) < polls (sd_process (terminate s)).
Proof.
  unfold terminate, poll.
  destruct (alive_at (sd_process s) (polls (sd_process s))) eqn:Halive.
  - cbn [say sd_process sd_trace sd_log].
    set (pr := mkProcess _ _ _). set (tr := sd_trace s ++ _).
    destruct (wait_exit_shape 20 pr tr) as (k & Hk & Ht & Ha & _ & Hp).
    destruct (wait_exit 20 pr tr) as [[gone pr2] tr2]. cbn [fst snd] in *.
    exists (Terminate :: repeat (Sleep 100) k).
    assert (E : sd_trace s ++ Terminate :: repeat (Sleep 100) k = tr2).
    { rewrite Ht. unfold tr. rewrite <- app_assoc. reflexivity. }
    unfold pr in Hp. cbn [polls] in Hp.
    destruct gone; cbn [say sd_trace sd_process]; rewrite E;
      (split; [reflexivity|]); (split; [right; exists k; auto|]);
      (split; [split; discriminate|]); (split; [exact Ha|lia]).
  - exists []. cbn [sd_trace sd_process alive_at polls]. rewrite app_nil_r.
    repeat split; auto.
Qed.

Lemma force_kill_shape (s : shutdown) :
  exists k,
    sd_trace (force_kill s) = sd_trace s ++ k
    /\ (k = [] \/ k = [Kill; Sleep 500])
    /\ (k = [] <-> alive_at (sd_process s) (polls (sd_process s)) = false).
Proof.
  unfold force_kill, poll.
  destruct (alive_at (sd_process s) (polls (sd_process s))) eqn:Halive.
  - exists [Kill; Sleep 500]. cbn [say sd_process sd_trace sd_log alive_at polls].
    destruct (alive_at (sd_process s) (S (polls (sd_process s))));
      cbn [say sd_trace]; repeat split; auto; discriminate.
  - exists []. cbn [sd_trace]. rewrite app_nil_r. repeat split; auto.
Qed.

(** The trace of the whole ladder. *)
Lemma handle_termination_shape (pr : process) (tr : list io_action) :
  exists g t k,
    fst (handle_termination pr tr) = tr ++ g ++ t ++ k
    /\ (g = [] \/ exists n, n <= 30 /\ g = exit_command ++ repeat (Sleep 100) n)
    /\ (t = [] \/ exists n, n <= 20 /\ t = Terminate :: repeat (Sleep 100) n)
    /\ (k = [] \/ k = [Kill; Sleep 500])
    /\ (stdin_closed pr = true -> g = [])
    /\ (alive_at pr (polls pr) = false -> g = [] /\ t = [] /\ k = [])
    /\ ((forall m n, m <= n -> alive_at pr m = false -> alive_at pr n = false) ->
        k <> [] -> t <> []).
Proof.
  unfold handle_termination, poll.
  destruct (alive_at pr (polls pr)) eqn:Halive.
  - set (s0 := mkShutdown _ tr _).
    destruct (graceful_shape s0) as (g & Hg & Hgs & Hgc & Hga & Hgp).
    destruct (terminate_shape (graceful s0)) as (t & Ht & Hts & Hte & Hta & Htp).
    destruct (force_kill_shape (terminate (graceful s0))) as (k & Hk & Hks & Hke).
    exists g, t, k. cbn [fst].
    rewrite Hk, Ht, Hg. unfold s0 at 1. cbn [sd_trace].
    rewrite <- !app_assoc.
    split; [reflexivity|]. split; [exact Hgs|]. split; [exact Hts|].
    split; [exact Hks|]. split; [exact Hgc|]. split; [discriminate|].
    intros Hmono Hkne Htnil. apply Hkne. apply Hke.
    apply Hte in Htnil. rewrite Hta, Hga. rewrite Hga in Htnil.
    change (alive_at (sd_process s0)) with (alive_at pr) in *.
    eapply Hmono; [|exact Htnil]. lia.
  - exists [], [], []. cbn [fst app]. rewrite app_nil_r.
    repeat split; auto.
Qed.

(** The stop operator on a running session, with the ladder left folded. *)
Lemma stop_service_running (w : world) (pr : process) :
  process_running (props w) = true ->
  whisperx_process w = Some pr ->
  stop_service w
  = ((FINISHED, [(INFO, lit "Service stopped successfully")]),
     mkWorld
       (set_process_log
          (process_log (props w) ++ lit "=== Service stopped by user ===" ++ NL)
          (set_status_message (lit "Service stopped")
             (set_loaded_model (lit "None")
                (set_ui_state STATE_INITIAL
                   (set_status_message (lit "Stopping service...")
                      (set_process_running false (props w)))))))
       None None
       (timers w
        ++ map add_to_log (snd (handle_termination pr (trace w)))
        ++ match process_thread w with
           | Some true =>
               [add_to_log (lit "Waiting for process thread to finish...");
                cleanup_thread]
           | _ => []
           end)
       (fst (handle_termination pr (trace w)))).
Proof.
  intros Hrun Hpr. unfold stop_service. rewrite Hrun, Hpr. cbn [negb].
  destruct (handle_termination pr (trace w)) as [tr lines]. reflexivity.
Qed.

(** X1.  Stopping a running session always completes, whatever the worker
    does: the operator finishes, the state is Initial, the session is
    marked as not running, no model is loaded, the handles are dropped, the
    log gains the line of the stop, and the operator has slept for at most
    5.5 seconds in all. *)
Theorem stop_service_always_completes (w : world) :
  process_running (props w) = true ->
  fst (stop_service w) = (FINISHED, [(INFO, lit "Service stopped successfully")])
  /\ ui_state (props (snd (stop_service w))) = STATE_INITIAL
  /\ process_running (props (snd (stop_service w))) = false
  /\ loaded_model (props (snd (stop_service w))) = lit "None"
  /\ status_message (props (snd (stop_service w))) = lit "Service stopped"
  /\ process_log (props (snd (stop_service w)))
     = process_log (props w) ++ lit "=== Service stopped by user ===" ++ NL
  /\ transcription_output (props (snd (stop_service w)))
     = transcription_output (props w)
  /\ whisperx_process (snd (stop_service w)) = None
  /\ process_thread (snd (stop_service w)) = None
  /\ exists added,
       trace (snd (stop_service w)) = trace w ++ added
       /\ (sleep_total added <= 5500)%Z.
Proof.
  intros Hrun.
  destruct (whisperx_process w) as [pr|] eqn:Hpr.
  - rewrite (stop_service_running w Hrun Hpr). cbn [fst snd props trace
      whisperx_process process_thread].
    repeat (split; [reflexivity|]).
    destruct (handle_termination_shape pr (trace w))
      as (g & t & k & Htr & Hg & Ht & Hk & _).
    exists (g ++ t ++ k). split; [exact Htr|].
    rewrite !sleep_total_app.
    assert (sleep_total g <= 3000)%Z.
    { destruct Hg as [-> | (n & Hn & ->)]; [cbn; lia|].
      rewrite sleep_total_app, sleep_total_repeat.
      change (sleep_total exit_command) with 0%Z. lia. }
    assert (sleep_total t <= 2000)%Z.
    { destruct Ht as [-> | (n & Hn & ->)]; [cbn; lia|].
      cbn [sleep_total]. rewrite sleep_total_repeat. lia. }
    assert (sleep_total k <= 500)%Z.
    { destruct Hk as [-> | ->]; [cbn; lia|].
      change (sleep_total [Kill; Sleep 500]) with (Z.of_nat 500 + 0)%Z. lia. }
    lia.
  - unfold stop_service. rewrite Hrun, Hpr. cbn [negb fst snd props trace
      whisperx_process process_thread].
    repeat (split; [reflexivity|]).
    exists []. rewrite app_nil_r. split; [reflexivity | cbn; lia].
Qed.

Lemma stop_service_always_completes_witness :
  ui_state (props (snd (stop_service started))) = STATE_INITIAL
  /\ whisperx_process (snd (stop_service started)) = None.
Proof.
  destruct (stop_service_always_completes started eq_refl)
    as (_ & H1 & _ & _ & _ & _ & _ & H2 & _).
  split; assumption.
Defined.

(** X2.  The stop operator escalates in order.  What it adds to the trace
    is, in this order: the exit command with at most 30 waits of 100 ms, or
    nothing; the terminate signal with at most 20 waits, or nothing; the
    kill signal with one wait of 500 ms, or nothing.  Nothing is written to
    an input stream that is closed; a worker found gone at the first check
    is neither written to nor signalled; and for a worker that stays gone
    once it is gone, the kill signal is sent only after the terminate
    signal. *)
Theorem stop_service_escalates_in_order (w : world) (pr : process) :
  process_running (props w) = true ->
  whisperx_process w = Some pr ->
  exists g t k,
    trace (snd (stop_service w)) = trace w ++ g ++ t ++ k
    /\ (g = [] \/ exists n, n <= 30 /\ g = exit_command ++ repeat (Sleep 100) n)
    /\ (t = [] \/ exists n, n <= 20 /\ t = Terminate :: repeat (Sleep 100) n)
    /\ (k = [] \/ k = [Kill; Sleep 500])
    /\ (stdin_closed pr = true -> g = [])
    /\ (alive_at pr (polls pr) = false -> g = [] /\ t = [] /\ k = [])
    /\ ((forall m n, m <= n -> alive_at pr m = false -> alive_at pr n = false) ->
        k <> [] -> t <> []).
Proof.
  intros Hrun Hpr. rewrite (stop_service_running w Hrun Hpr). cbn [snd trace].
  apply handle_termination_shape.
Qed.

Lemma stop_service_escalates_in_order_witness :
  exists g t k,
    trace (snd (stop_service started)) = trace started ++ g ++ t ++ k
    /\ (k = [] \/ k = [Kill; Sleep 500]).
Proof.
  destruct (@stop_service_escalates_in_order started
              (mkProcess (fun _ => true) 0 false) eq_refl eq_refl)
    as (g & t & k & H & _ & _ & Hk & _).
  exists g, t, k. split; assumption.
Defined.

(** X3.  A worker that obeys the exit command is not signalled.  If the
    worker is alive at the first check, its input stream is open, and it is
    gone for good from the [j]-th check of the wait on ([j] at most 30,
    alive before), then the operator writes the exit command, waits [j]
    times and sends no signal; it logs the graceful stop when it saw the
    worker go during the wait. *)
Theorem obedient_worker_is_not_signalled (w : world) (pr : process) (j : nat) :
  process_running (props w) = true ->
  whisperx_process w = Some pr ->
  stdin_closed pr = false ->
  alive_at pr (polls pr) = true ->
  j <= 30 ->
  (forall i, i < j -> alive_at pr (S (polls pr) + i) = true) ->
  (forall m, S (polls pr) + j <= m -> alive_at pr m = false) ->
  trace (snd (stop_service w))
  = trace w ++ exit_command ++ repeat (Sleep 100) j
  /\ logged (timers (snd (stop_service w)))
     = logged (timers w)
       ++ [lit "Stopping WhisperX service..."]
       ++ (if j <? 30 then [lit "Service stopped gracefully"] else [])
       ++ match process_thread w with
          | Some true => [lit "Waiting for process thread to finish..."]
          | _ => []
          end.
Proof.
  intros Hrun Hpr Hopen Halive Hj Hbefore Hafter.
  rewrite (stop_service_running w Hrun Hpr). cbn [snd trace timers].
  assert (Hterm : handle_termination pr (trace w)
                  = (trace w ++ exit_command ++ repeat (Sleep 100) j,
                     lit "Stopping WhisperX service..."
                     :: (if j <? 30 then [lit "Service stopped gracefully"] else []))).
  { unfold handle_termination, poll. rewrite Halive.
    unfold graceful. cbn [sd_process stdin_closed sd_trace sd_log alive_at polls].
    rewrite Hopen.
    destruct (Nat.ltb_spec j 30) as [Hlt | Hge].
    - rewrite (@wait_exit_gone 30 j) by (cbn [alive_at polls]; auto; apply Hafter; lia).
      unfold say. cbn [sd_process sd_trace sd_log alive_at polls stdin_closed].
      unfold terminate, poll, say. cbn [sd_process sd_trace sd_log alive_at polls].
      rewrite (Hafter (S (polls pr) + j + 1)) by lia.
      unfold force_kill, poll, say. cbn [sd_process sd_trace sd_log alive_at polls].
      rewrite (Hafter (S (S (polls pr) + j + 1))) by lia.
      cbn [sd_trace sd_log app]. rewrite <- app_assoc. reflexivity.
    - assert (j = 30) by lia. subst j.
      rewrite wait_exit_alive by (cbn [alive_at polls]; auto).
      unfold say. cbn [sd_process sd_trace sd_log alive_at polls stdin_closed].
      unfold terminate, poll, say. cbn [sd_process sd_trace sd_log alive_at polls].
      rewrite (Hafter (S (polls pr) + 30)) by lia.
      unfold force_kill, poll, say. cbn [sd_process sd_trace sd_log alive_at polls].
      rewrite (Hafter (S (S (polls pr) + 30))) by lia.
      cbn [sd_trace sd_log app]. rewrite <- app_assoc. reflexivity. }
  rewrite Hterm. cbn [fst snd]. split; [reflexivity|].
  rewrite !logged_app.
  assert (Hmap : forall ls, logged (map add_to_log ls) = ls).
  { induction ls as [|l ls IH]; [reflexivity|]. cbn. rewrite IH. reflexivity. }
  rewrite Hmap. cbn [app].
  destruct (process_thread w) as [[|]|]; reflexivity.
Qed.

(** A worker that is gone at the fifth check. *)
Lemma obedient_worker_is_not_signalled_witness :
  let pr := mkProcess (fun n => Nat.ltb n 5) 0 false in
  let w := mkWorld (props started) (Some pr) (Some true) [] [] in
  trace (snd (stop_service w)) = exit_command ++ repeat (Sleep 100) 4.
Proof.
  intros pr w.
  apply (proj1 (@obedient_worker_is_not_signalled w pr 4 eq_refl eq_refl eq_refl
                  eq_refl ltac:(lia)
                  ltac:(intros i Hi; apply Nat.ltb_lt; cbn; lia)
                  ltac:(intros m Hm; apply Nat.ltb_ge; cbn in *; lia))).
Defined.

(** X4.  A worker that never goes away gets the whole ladder: the exit
    command and 30 waits, the terminate signal and 20 waits, the kill
    signal and one wait of 500 ms, 5.5 seconds in all; the operator then
    warns that it could not kill the process, and finishes all the same. *)
Theorem immortal_worker_gets_whole_ladder (w : world) (pr : process) :
  process_running (props w) = true ->
  whisperx_process w = Some pr ->
  stdin_closed pr = false ->
  (forall n, alive_at pr n = true) ->
  trace (snd (stop_service w))
  = trace w ++ exit_command ++ repeat (Sleep 100) 30
      ++ Terminate :: repeat (Sleep 100) 20 ++ [Kill; Sleep 500]
  /\ (sleep_total (trace (snd (stop_service w))) = sleep_total (trace w) + 5500)%Z
  /\ In (add_to_log (lit "Warning: Could not kill process"))
        (timers (snd (stop_service w)))
  /\ fst (fst (stop_service w)) = FINISHED
  /\ ui_state (props (snd (stop_service w))) = STATE_INITIAL.
Proof.
  intros Hrun Hpr Hopen Hall.
  rewrite (stop_service_running w Hrun Hpr). cbn [fst snd trace timers props].
  assert (Hterm : handle_termination pr (trace w)
                  = (trace w ++ exit_command ++ repeat (Sleep 100) 30
                       ++ Terminate :: repeat (Sleep 100) 20 ++ [Kill; Sleep 500],
                     map lit ["Stopping WhisperX service..."; "Terminating process...";
                              "Force killing process...";
                              "Warning: Could not kill process"]%string)).
  { unfold handle_termination, poll. rewrite Hall.
    unfold graceful. cbn [sd_process stdin_closed sd_trace sd_log alive_at polls].
    rewrite Hopen.
    rewrite wait_exit_alive by (intros; apply Hall).
    unfold say. cbn [sd_process sd_trace sd_log alive_at polls stdin_closed].
    unfold terminate, poll, say. cbn [sd_process sd_trace sd_log alive_at polls].
    rewrite Hall. unfold say. cbn [sd_process sd_trace sd_log alive_at polls].
    rewrite wait_exit_alive by (intros; apply Hall).
    unfold say. cbn [sd_process sd_trace sd_log alive_at polls stdin_closed].
    unfold force_kill, poll, say. cbn [sd_process sd_trace sd_log alive_at polls].
    rewrite !Hall. unfold say. cbn [sd_process sd_trace sd_log alive_at polls].
    rewrite <- !app_assoc. reflexivity. }
  rewrite Hterm. cbn [fst snd].
  split; [reflexivity|]. split; [|split; [|split; reflexivity]].
  - rewrite sleep_total_app. reflexivity.
  - apply in_or_app. right. apply in_or_app. left. cbn. tauto.
Qed.

Lemma immortal_worker_gets_whole_ladder_witness :
  sleep_total (trace (snd (stop_service started))) = 5500%Z.
Proof.
  apply (proj1 (proj2 (@immortal_worker_gets_whole_ladder started
                  (mkProcess (fun _ => true) 0 false)
                  eq_refl eq_refl eq_refl (fun _ => eq_refl)))).
Defined.

End Shutdown.

(* ================================================================== *)
(** ** Starting the service *)
(* ================================================================== *)

Section Start.
Import Addon.




End Start.

(* ================================================================== *)
(** ** The commands: what the add-on writes and what the worker reads *)
(* ================================================================== *)

Section Commands.
Import Runner Addon.

Lemma lstrip_app_spaces (a b : str) :
  forallb isspace a = true -> lstrip (a ++ b) = lstrip b.
Proof.
  induction a as [|c a IH]; [reflexivity|].
  cbn [forallb app lstrip]. rewrite andb_true_iff. intros [Hc Ha].
  rewrite Hc. apply IH, Ha.
Qed.

Lemma rstrip_app_spaces (s ws : str) :
  forallb isspace ws = true -> rstrip (s ++ ws) = rstrip s.
Proof.
  intros H. unfold rstrip. rewrite rev_app_distr, lstrip_app_spaces; [reflexivity|].
  apply forallb_forall. intros x Hx. rewrite forallb_forall in H.
  apply H, in_rev, Hx.
Qed.

Lemma rstrip_snoc_nonspace (s : str) (c : char) :
  isspace c = false -> rstrip (s ++ [c]) = s ++ [c].
Proof.
  intros H. unfold rstrip. rewrite rev_app_distr. cbn [rev app lstrip].
  rewrite H. cbn [rev]. rewrite rev_involutive. reflexivity.
Qed.



















(** X8.  The loop of the worker never answers that a command lacks its
    argument: the parser gives every load-model and transcribe-audio
    command exactly one argument, so those two answers cannot occur.  The
    command without anything between its parentheses is passed on with an
    empty argument, which is then no model the worker knows. *)
Theorem dispatch_never_misses_argument (line : str) :
  dispatch line <> LoadModelUsage
  /\ dispatch line <> TranscribeAudioUsage
  /\ dispatch (lit "load-model()") = LoadModel []
  /\ load_model_name [] = None
  /\ dispatch (lit "transcribe-audio()") = TranscribeAudio [].
Proof.
  assert (H : dispatch line <> LoadModelUsage /\ dispatch line <> TranscribeAudioUsage).
  { unfold dispatch. destruct (strip line) as [|c s]; [split; discriminate|].
    unfold parse_command.
    destruct (str_eqb _ _); [split; discriminate|].
    destruct (str_eqb _ _); [split; discriminate|].
    destruct (_ && _); [split; discriminate|].
    destruct (_ && _); split; discriminate. }
  destruct H as [H1 H2]. repeat split; assumption.
Qed.

End Commands.

(* ================================================================== *)
(** ** The panels and the sequencer channel *)
(* ================================================================== *)

Section Panels.
Import Addon.

Lemma text_channel_from (channels : list Z) (start : Z) :
  let result :=
    fold_left (fun text_channel channel =>
                 if (text_channel <=? channel)%Z then (channel + 1)%Z
                 else text_channel) channels start in
  (start <= result)%Z
  /\ Forall (fun channel => (channel < result)%Z) channels
  /\ (result = start \/ In (result - 1)%Z channels).
Proof.
  revert start; induction channels as [|c cs IH]; intros start; cbn [fold_left].
  - repeat split; [lia | constructor | left; reflexivity].
  - destruct (Z.leb_spec start c) as [Hle | Hgt].
    + destruct (IH (c + 1)%Z) as (H1 & H2 & H3). cbv zeta in *.
      repeat split; [lia | constructor; [lia | exact H2] |].
      destruct H3 as [-> | H3]; right; [left; lia | right; exact H3].
    + destruct (IH start) as (H1 & H2 & H3). cbv zeta in *.
      repeat split; [lia | constructor; [lia | exact H2] |].
      destruct H3 as [-> | H3]; [left; reflexivity | right; right; exact H3].
Qed.

(** X9.  The channel picked for the text strips is free: it is at least 2
    and above the channel of every strip in the sequencer; and it is the
    lowest such channel, 2 or the one right above the highest strip. *)
Theorem text_channel_is_above_all_strips (channels : list Z) :
  (2 <= text_channel channels)%Z
  /\ Forall (fun channel => (channel < text_channel channels)%Z) channels
  /\ (text_channel channels = 2%Z \/ In (text_channel channels - 1)%Z channels).
Proof. apply (text_channel_from channels 2). Qed.

Lemma truncate_firstn (n : nat) (line : str) :
  truncate (Z.of_nat n) line = firstn n line.
Proof.
  unfold truncate, slice, norm_index.
  change (0 <? 0)%Z with false. cbv iota.
  destruct (Z.ltb_spec (Z.of_nat n) 0); [lia|].
  rewrite (Z.min_l 0) by lia. cbn [Z.to_nat skipn].
  destruct (Z.min_spec (Z.of_nat n) (Z.of_nat (length line))) as [[Hlt ->] | [Hge ->]];
    rewrite Z.sub_0_r, Nat2Z.id; [reflexivity|].
  rewrite firstn_all. symmetry. apply firstn_all2. lia.
Qed.

Lemma slice_from_last (A : Type) (n : nat) (xs : list A) :
  0 < n -> slice_from xs (- Z.of_nat n) = last_n n xs.
Proof.
  intros Hn. unfold slice_from, last_n, norm_index.
  destruct (Z.ltb_spec (- Z.of_nat n) 0); [|lia].
  f_equal. lia.
Qed.

Lemma last_n_snoc_one (A : Type) (n : nat) (xs : list A) (x : A) :
  last_n (S n) (xs ++ [x]) = last_n n xs ++ [x].
Proof.
  unfold last_n. rewrite length_app. cbn [length].
  rewrite skipn_app.
  replace (length xs + 1 - S n) with (length xs - n) by lia.
  replace (length xs - n - length xs) with 0 by lia. reflexivity.
Qed.

(** X10.  The log panel shows at most 15 labels of at most 80 characters.
    On a log as the add-on writes it, where every line is ended by a
    newline, the last piece between newlines is empty, so the panel shows
    the last 14 lines of the log, not 15: those that are not blank, cut to
    80 characters. *)
Theorem logs_panel_shows_last_14_lines :
  (forall p,
      length (logs_panel p) <= 15
      /\ Forall (fun label => length label <= 80) (logs_panel p))
  /\ (forall p lines,
      process_log p = log_text lines -> lines <> [] ->
      forallb no_newline lines = true ->
      logs_panel p
      = map (firstn 80)
          (filter (fun line => nonempty (strip line)) (last_n 14 lines))).
Proof.
  split.
  - intros p. unfold logs_panel.
    destruct (nonempty (process_log p)).
    + split.
      * rewrite length_map.
        etransitivity; [apply filter_length_le|].
        rewrite (slice_from_last (n:=15)) by lia.
        unfold last_n. rewrite length_skipn. lia.
      * apply Forall_map, Forall_forall. intros line _.
        rewrite (truncate_firstn 80). apply firstn_le_length.
    + split; [cbn; lia | repeat constructor; cbn; lia].
  - intros p lines Hlog Hne Hnl. unfold logs_panel. rewrite Hlog.
    assert (Hnon : nonempty (log_text lines) = true).
    { destruct lines as [|l ls]; [congruence|].
      unfold log_text. cbn [map concat]. rewrite <- app_assoc.
      destruct l; reflexivity. }
    rewrite Hnon.
    pose proof (split_log_text lines [] Hnl) as Hsplit.
    rewrite app_nil_r in Hsplit. rewrite Hsplit.
    change (split NL []) with [@nil char].
    rewrite (slice_from_last (n:=15)) by lia.
    rewrite last_n_snoc_one, filter_app. cbn [filter].
    change (nonempty (strip [])) with false. cbv iota. rewrite app_nil_r.
    apply map_ext. intros line. apply (truncate_firstn 80).
Qed.

(** Twenty lines in the log: the panel shows "7" to "20". *)
Lemma logs_panel_shows_last_14_lines_witness :
  logs_panel (set_process_log (log_text (numbered 1 20)) default_props)
  = numbered 7 14.
Proof.
  rewrite (proj2 logs_panel_shows_last_14_lines
             (set_process_log (log_text (numbered 1 20)) default_props)
             (numbered 1 20) eq_refl ltac:(discriminate) eq_refl).
  reflexivity.
Defined.

Lemma split_ws_go_words (s cur : str) :
  forallb (fun c => negb (isspace c)) cur = true ->
  forallb is_word (split_ws_go s cur) = true.
Proof.
  assert (Hrev : forall cur c,
             forallb (fun c => negb (isspace c)) (c :: cur) = true ->
             is_word (rev (c :: cur)) = true).
  { intros cur0 c H. unfold is_word. apply andb_true_iff. split.
    - cbn [rev]. destruct (rev cur0); reflexivity.
    - apply forallb_forall. intros x Hx. rewrite forallb_forall in H.
      apply H, in_rev, Hx. }
  revert cur; induction s as [|c s IH]; intros cur Hcur; cbn [split_ws_go].
  - destruct cur as [|d cur]; [reflexivity|].
    cbn [forallb]. rewrite (Hrev cur d Hcur). reflexivity.
  - destruct (isspace c) eqn:Hc.
    + destruct cur as [|d cur]; [apply IH; reflexivity|].
      cbn [forallb]. rewrite (Hrev cur d Hcur). apply IH. reflexivity.
    + apply IH. cbn [forallb]. rewrite Hc, Hcur. reflexivity.
Qed.

Lemma spaced_snoc (g : list str) (w : str) :
  spaced (g ++ [w]) = spaced g ++ w ++ SPACE.
Proof.
  unfold spaced. rewrite map_app, concat_app. cbn [map concat].
  rewrite app_nil_r. reflexivity.
Qed.

Lemma join_cons (sep x : str) (rest : list str) :
  rest <> [] -> join sep (x :: rest) = x ++ sep ++ join sep rest.
Proof. destruct rest; [congruence | reflexivity]. Qed.

Lemma join_snoc (g : list str) (w : str) :
  join SPACE (g ++ [w]) = spaced g ++ w.
Proof.
  induction g as [|x g IH]; [reflexivity|].
  cbn [app]. unfold spaced. cbn [map concat]. fold (spaced g).
  rewrite join_cons by (destruct g; discriminate).
  rewrite IH, <- !app_assoc. reflexivity.
Qed.

Lemma strip_ends (c d : char) (rest front s ws : str) :
  s = c :: rest -> s = front ++ [d] ->
  isspace c = false -> isspace d = false -> forallb isspace ws = true ->
  strip (s ++ ws) = s.
Proof.
  intros Hc Hd Hcs Hds Hws. unfold strip.
  rewrite Hc at 1. cbn [app lstrip]. rewrite Hcs.
  change (c :: rest ++ ws) with ((c :: rest) ++ ws). rewrite <- Hc.
  rewrite (rstrip_app_spaces s ws Hws). rewrite Hd.
  apply rstrip_snoc_nonspace, Hds.
Qed.

Lemma is_word_first (w : str) :
  is_word w = true -> exists c rest, w = c :: rest /\ isspace c = false.
Proof.
  unfold is_word. destruct w as [|c rest]; [discriminate|].
  cbn [nonempty andb forallb]. rewrite andb_true_iff, negb_true_iff.
  intros [H _]. exists c, rest. auto.
Qed.

Lemma is_word_last (w : str) :
  is_word w = true -> exists front d, w = front ++ [d] /\ isspace d = false.
Proof.
  unfold is_word. rewrite andb_true_iff. intros [Hne Hall].
  destruct w as [|c rest]; [discriminate|].
  assert (Hnil : c :: rest <> []) by discriminate.
  exists (removelast (c :: rest)), (last (c :: rest) 0%N).
  split; [apply app_removelast_last, Hnil|].
  rewrite forallb_forall in Hall. apply negb_true_iff, Hall.
  rewrite (app_removelast_last 0%N Hnil) at 2. apply in_or_app. right. left. reflexivity.
Qed.

(** The line made of the current words, as the loop stores it. *)
Lemma strip_spaced (g : list str) :
  forallb is_word g = true -> strip (spaced g) = join SPACE g.
Proof.
  intros Hg. destruct g as [|w0 g0] using rev_ind; [reflexivity|]. clear IHg0.
  rewrite spaced_snoc, join_snoc, app_assoc.
  rewrite forallb_app in Hg. apply andb_true_iff in Hg. destruct Hg as [Hg0 Hw].
  cbn [forallb] in Hw. rewrite andb_true_r in Hw.
  destruct (is_word_last _ Hw) as (front & d & Hfront & Hd).
  assert (Hfirst : exists c rest, spaced g0 ++ w0 = c :: rest /\ isspace c = false).
  { destruct g0 as [|x g1].
    - apply is_word_first, Hw.
    - cbn [forallb] in Hg0. apply andb_true_iff in Hg0. destruct Hg0 as [Hx _].
      destruct (is_word_first _ Hx) as (c & rest & -> & Hc).
      unfold spaced. cbn [map concat app]. eexists _, _. split; [reflexivity|exact Hc]. }
  destruct Hfirst as (c & rest & Hrest & Hc).
  apply (@strip_ends c d rest (spaced g0 ++ front) _ SPACE Hrest);
    [rewrite Hfront, app_assoc; reflexivity | exact Hc | exact Hd | reflexivity].
Qed.

(** The loop over the words, from any point on: [g] is the group of words
    in [current_line]. *)
Lemma wrap_fold (ws : list str) :
  forall (lines : list str) (g : list str),
    forallb is_word ws = true -> forallb is_word g = true ->
    (length g <= 1 \/ length (join SPACE g) < 60) ->
    exists gs g',
      fold_left wrap_step ws (lines, spaced g)
      = (lines ++ map (join SPACE) gs, spaced g')
      /\ concat gs ++ g' = g ++ ws
      /\ Forall (fun g => length g <= 1 \/ length (join SPACE g) < 60) (gs ++ [g'])
      /\ forallb is_word g' = true
      /\ (g <> [] \/ ws <> [] -> g' <> []).
Proof.
  induction ws as [|w ws IH]; intros lines g Hws Hg Hok.
  - exists [], g. cbn [fold_left map concat app]. rewrite !app_nil_r.
    repeat split; auto. intros [H | H]; [exact H | congruence].
  - cbn [forallb] in Hws. apply andb_true_iff in Hws. destruct Hws as [Hw Hws].
    cbn [fold_left wrap_step].
    destruct (Nat.ltb_spec (length (spaced g ++ w)) 60) as [Hlt | Hge].
    + rewrite <- spaced_snoc.
      destruct (IH lines (g ++ [w]) Hws) as (gs & g' & Hf & Hc & Hall & Hw' & Hne).
      * rewrite forallb_app, Hg. cbn [forallb]. rewrite Hw. reflexivity.
      * right. rewrite join_snoc. exact Hlt.
      * exists gs, g'. split; [exact Hf|]. split.
        { rewrite Hc, <- app_assoc. reflexivity. }
        repeat split; auto. intros _. apply Hne. left. destruct g; discriminate.
    + rewrite (strip_spaced g Hg).
      destruct (IH (lines ++ [join SPACE g]) [w] Hws) as (gs & g' & Hf & Hc & Hall & Hw' & Hne).
      * cbn [forallb]. rewrite Hw. reflexivity.
      * left. cbn. lia.
      * exists (g :: gs), g'.
        assert (Hsp : w ++ SPACE = spaced [w]).
        { unfold spaced. cbn [map concat]. symmetry. apply app_nil_r. }
        split.
        { rewrite Hsp. etransitivity; [exact Hf|].
          cbn [map]. rewrite <- app_assoc. reflexivity. }
        split.
        { cbn [concat]. rewrite <- app_assoc, Hc. reflexivity. }
        repeat split; auto.
        -- cbn [app]. constructor; assumption.
        -- intros _. apply Hne. left. discriminate.
Qed.

(** X11.  The transcript shown in the output panel loses no word: the
    lines are the words of the transcript, in their order, cut into groups
    and joined with one space; and a line of two or more words is shorter
    than 60 characters.  (A line may be longer only when it is one word,
    and the first line is empty when the first word alone is too long.) *)
Theorem wrap_transcript_keeps_words (transcript : str) :
  exists groups,
    wrap_transcript transcript = map (join SPACE) groups
    /\ concat groups = split_ws transcript
    /\ Forall (fun g => length g <= 1 \/ length (join SPACE g) < 60) groups.
Proof.
  unfold wrap_transcript.
  destruct (@wrap_fold (split_ws transcript) [] []
              (split_ws_go_words transcript [] eq_refl) eq_refl
              ltac:(left; cbn; lia))
    as (gs & g' & Hf & Hc & Hall & Hw & Hne).
  match goal with
  | |- context [fold_left wrap_step ?a ?b] =>
      assert (E : fold_left wrap_step a b = (map (join SPACE) gs, spaced g'))
        by exact Hf;
      rewrite E
  end.
  cbn [app] in *.
  destruct g' as [|w g'].
  - cbn [spaced map concat nonempty]. exists gs. rewrite app_nil_r in Hc.
    repeat split; auto.
    apply Forall_app in Hall. apply Hall.
  - assert (Hnon : nonempty (spaced (w :: g')) = true).
    { cbn [forallb] in Hw. apply andb_true_iff in Hw. destruct Hw as [Hw _].
      destruct (is_word_first _ Hw) as (c & rest & -> & _). reflexivity. }
    rewrite Hnon, (strip_spaced _ Hw).
    exists (gs ++ [w :: g']). rewrite map_app, concat_app. cbn [map concat].
    rewrite app_nil_r. repeat split; auto.
Qed.

End Panels.

(* ================================================================== *)
(** ** The end of the worker, and the model name in its output *)
(* ================================================================== *)

Section WorkerOutput.
Import Runner Addon.

(** X12.  Whatever the worker wrote before, its exit ends the session:
    once everything the reader registered has been delivered, the state is
    Initial, the session is marked as not running, no model is loaded, the
    handles are dropped, and the status tells the exit code when it is not
    zero.  A stop request is then refused as there is nothing to stop, and
    a start request is not refused as already running. *)
Theorem worker_exit_ends_session (raws : list str) (exit_code : Z) (w : world) :
  let w' := deliver (read_process_output raws exit_code) w in
  ui_state (props w') = STATE_INITIAL
  /\ process_running (props w') = false
  /\ loaded_model (props w') = lit "None"
  /\ status_message (props w')
     = (if (exit_code =? 0)%Z then lit "Service stopped"
        else lit "Service stopped with error (code: " ++ str_of_int exit_code ++ lit ")")
  /\ whisperx_process w' = None
  /\ process_thread w' = None
  /\ stop_service w' = ((CANCELLED, [(WARNING, lit "No service is running")]), w')
  /\ (forall h, snd (fst (start_service h w'))
                <> [(WARNING, lit "Service is already running")]).
Proof.
  intros w'.
  assert (Hw : exists w0, w' = run_update (process_ended (Some exit_code)) w0).
  { unfold w', read_process_output. rewrite deliver_app.
    cbn [deliver fold_left]. eexists. reflexivity. }
  destruct Hw as [w0 Hw]. rewrite Hw. clear Hw w'.
  assert (Hrun : process_running
                   (props (run_update (process_ended (Some exit_code)) w0)) = false).
  { cbn [run_update props]. unfold run_process_ended.
    destruct (exit_code =? 0)%Z; reflexivity. }
  repeat split.
  - cbn [run_update props]. unfold run_process_ended.
    destruct (exit_code =? 0)%Z; reflexivity.
  - exact Hrun.
  - cbn [run_update props]. unfold run_process_ended.
    destruct (exit_code =? 0)%Z; reflexivity.
  - cbn [run_update props]. unfold run_process_ended.
    destruct (exit_code =? 0)%Z; reflexivity.
  - unfold stop_service. rewrite Hrun. reflexivity.
  - intros h. unfold start_service. rewrite Hrun.
    destruct (_ && _).
    + destruct (popen h _); cbn [fst snd]; discriminate.
    + destruct (find_whisperx_script h); [|cbn [fst snd]; discriminate].
      destruct (popen h _); cbn [fst snd]; discriminate.
Qed.

Lemma span_unquoted_parts (s : str) :
  s = fst (span_unquoted s) ++ snd (span_unquoted s)
  /\ ~ In QUOTE (fst (span_unquoted s))
  /\ (snd (span_unquoted s) = []
      \/ exists rest, snd (span_unquoted s) = QUOTE :: rest).
Proof.
  induction s as [|c s IH]; cbn [span_unquoted].
  - repeat split; auto.
  - destruct (N.eqb_spec c QUOTE) as [-> | Hc]; cbn [fst snd].
    + repeat split; auto. right. exists s. reflexivity.
    + destruct (span_unquoted s) as [a b]. cbn [fst snd] in *.
      destruct IH as (H1 & H2 & H3). repeat split.
      * cbn [app]. congruence.
      * intros [H | H]; [congruence | auto].
      * exact H3.
Qed.

Lemma span_unquoted_name (name rest : str) :
  ~ In QUOTE name ->
  span_unquoted (name ++ QUOTE :: rest) = (name, QUOTE :: rest).
Proof.
  induction name as [|c name IH]; intros H.
  - cbn. reflexivity.
  - cbn [app span_unquoted]. destruct (N.eqb_spec c QUOTE) as [-> | Hc].
    + exfalso. apply H. left. reflexivity.
    + rewrite IH; [reflexivity|]. intros Hin. apply H. right. exact Hin.
Qed.

Lemma skipn_model (rest : str) : skipn 7 (lit "Model '" ++ rest) = rest.
Proof. reflexivity. Qed.

(** The search passes over a prefix without a capital M. *)
Lemma search_model_skip (before s : str) :
  ~ In 77%N before -> search_model (before ++ s) = search_model s.
Proof.
  induction before as [|c before IH]; intros H; [reflexivity|].
  cbn [app search_model].
  assert (Hs : startswith (lit "Model '") (c :: before ++ s) = false).
  { cbn [lit map list_ascii_of_string startswith]. 
    destruct (N.eqb_spec (N_of_ascii "M") c) as [E | E]; [|reflexivity].
    exfalso. apply H. left. rewrite <- E. reflexivity. }
  rewrite Hs. apply IH. intros Hin. apply H. right. exact Hin.
Qed.

(** X13.  The model name taken from a line.  A name that is found is not
    empty, has no quote in it, and stands in the line between quotes right
    after the word Model and a space.  A name is found whenever the line
    holds such a quoted name; and it is that name when no capital M comes
    before it. *)
Theorem search_model_finds_quoted_name (line : str) :
  (forall name,
      search_model line = Some name ->
      name <> [] /\ ~ In QUOTE name
      /\ exists before after,
           line = before ++ lit "Model '" ++ name ++ QUOTE :: after)
  /\ (forall before name after,
      name <> [] -> ~ In QUOTE name ->
      line = before ++ lit "Model '" ++ name ++ QUOTE :: after ->
      search_model line <> None
      /\ (~ In 77%N before -> search_model line = Some name)).
Proof.
  assert (Hhere : forall name after,
             name <> [] -> ~ In QUOTE name ->
             search_model (lit "Model '" ++ name ++ QUOTE :: after) = Some name).
  { intros name after Hne Hq.
    change (lit "Model '" ++ name ++ QUOTE :: after)
      with (77%N :: tl (lit "Model '") ++ name ++ QUOTE :: after).
    cbn [search_model].
    change (77%N :: tl (lit "Model '") ++ name ++ QUOTE :: after)
      with (lit "Model '" ++ name ++ QUOTE :: after).
    rewrite (proj2 (startswith_app _ _)) by (eexists; reflexivity).
    rewrite skipn_model, (@span_unquoted_name name after Hq).
    destruct name; [congruence | reflexivity]. }
  split.
  - induction line as [|c line IH]; intros name; [discriminate|].
    cbn [search_model].
    assert (Hrest : search_model line = Some name ->
                    name <> [] /\ ~ In QUOTE name
                    /\ exists before after,
                         c :: line = before ++ lit "Model '" ++ name ++ QUOTE :: after).
    { intros H. destruct (IH name H) as (H1 & H2 & before & after & ->).
      repeat split; auto. exists (c :: before), after. reflexivity. }
    destruct (startswith (lit "Model '") (c :: line)) eqn:Hs; [|exact Hrest].
    apply startswith_app in Hs. destruct Hs as [t Ht]. rewrite Ht at 1.
    rewrite skipn_model.
    destruct (span_unquoted_parts t) as (Hsplit & Hq & Hclose).
    destruct (span_unquoted t) as [nm closing]. cbn [fst snd] in *.
    destruct nm as [|n0 nm]; [exact Hrest|].
    destruct closing as [|q closing]; [exact Hrest|].
    intros H. injection H as <-.
    destruct Hclose as [Hc | [rest Hc]]; [discriminate|]. injection Hc as -> ->.
    repeat split; [discriminate | exact Hq |].
    exists [], rest. rewrite Ht, Hsplit. reflexivity.
  - intros before name after Hne Hq ->. split.
    + induction before as [|c before IH].
      * cbn [app]. rewrite (Hhere name after Hne Hq). discriminate.
      * cbn [app search_model].
        destruct (startswith _ _); [|exact IH].
        destruct (span_unquoted _) as [nm closing].
        destruct nm; [exact IH|]. destruct closing; [exact IH|]. discriminate.
    + intros HM. rewrite (@search_model_skip before _ HM). apply Hhere; assumption.
Qed.

Lemma search_model_finds_quoted_name_witness :
  search_model (lit "! Model 'tiny.en' fully loaded") = Some (lit "tiny.en").
Proof.
  apply (proj2 (search_model_finds_quoted_name (lit "! Model 'tiny.en' fully loaded"))
           (lit "! ") (lit "tiny.en") (lit " fully loaded")
           ltac:(discriminate)
           ltac:(cbn; intros H; repeat destruct H as [H|H]; try discriminate H; exact H)
           eq_refl).
  cbn. intros H; repeat destruct H as [H|H]; try discriminate H; exact H.
Defined.

Lemma plain_mark_absent (c : char) (mark : str) :
  plain_mark mark = true ->
  existsb (N.eqb c) (lit "MESTDL=") = true ->
  ~ In c mark.
Proof.
  unfold plain_mark. intros Hm Hc Hin.
  rewrite forallb_forall in Hm. specialize (Hm c Hin).
  rewrite Hc in Hm. discriminate.
Qed.

Lemma contains_skip (c : char) (needle mark s : str) :
  ~ In c mark -> contains (c :: needle) (mark ++ s) = contains (c :: needle) s.
Proof.
  induction mark as [|x mark IH]; intros H; [reflexivity|].
  cbn [app contains startswith].
  destruct (N.eqb_spec c x) as [-> | Hx]; [exfalso; apply H; left; reflexivity|].
  cbn [andb orb]. apply IH. intros Hin. apply H. right. exact Hin.
Qed.

Lemma contains_skip_key (key mark s : str) :
  plain_mark mark = true ->
  match key with
  | c :: _ => existsb (N.eqb c) (lit "MESTDL=")
  | [] => false
  end = true ->
  contains key (mark ++ s) = contains key s.
Proof.
  intros Hm Hk. destruct key as [|c needle]; [discriminate|].
  apply contains_skip, (@plain_mark_absent c mark Hm Hk).
Qed.

Lemma contains_after (needle mark s : str) :
  contains needle s = true -> contains needle (mark ++ s) = true.
Proof.
  intros H. induction mark as [|x mark IH]; [exact H|].
  cbn [app contains]. fold (contains needle (mark ++ s)). rewrite IH. apply orb_true_r.
Qed.

(** A plain mark before a message changes nothing in what the status scan
    makes of it, when the message shows no error. *)
Lemma scan_status_after_mark (mark s : str) :
  plain_mark mark = true ->
  contains (lit "Model") s = false \/ contains (lit "loaded") s = true ->
  contains (lit "Error:") s = false ->
  scan_status (mark ++ s) = scan_status s.
Proof.
  intros Hm Hl He. unfold scan_status.
  rewrite (@contains_skip_key (lit "Model") mark s Hm eq_refl).
  rewrite (@contains_skip_key (lit "Error:") mark s Hm eq_refl).
  rewrite (@contains_skip_key (lit "Starting") mark s Hm eq_refl).
  rewrite (@contains_skip_key (lit "Setting up") mark s Hm eq_refl).
  rewrite (@contains_skip_key (lit "Environment setup complete") mark s Hm eq_refl).
  rewrite (@contains_skip_key (lit "Transcribing") mark s Hm eq_refl).
  rewrite (@contains_skip_key (lit "Downloading") mark s Hm eq_refl).
  rewrite (@contains_skip_key (lit "Loading model") mark s Hm eq_refl).
  rewrite (@contains_skip_key (lit "Transcription completed") mark s Hm eq_refl).
  rewrite (@search_model_skip mark s (@plain_mark_absent 77%N mark Hm eq_refl)).
  rewrite He. f_equal.
  destruct Hl as [Hl | Hl].
  - rewrite Hl. reflexivity.
  - rewrite Hl, (@contains_after (lit "loaded") mark s Hl). reflexivity.
Qed.

Lemma delimiter_after_mark (mark s : str) :
  plain_mark mark = true -> startswith DELIMITER (mark ++ 32%N :: s) = false.
Proof.
  intros Hm. destruct mark as [|c mark]; [reflexivity|].
  pose proof (@plain_mark_absent 61%N (c :: mark) Hm eq_refl) as H.
  cbn [app]. unfold DELIMITER.
  cbn [lit map list_ascii_of_string startswith].
  destruct (N.eqb_spec (N_of_ascii "=") c) as [E | E]; [|reflexivity].
  exfalso. apply H. left. rewrite <- E. reflexivity.
Qed.

(** X14.  What the worker prints when a model is ready reaches the
    add-on.  For every model of the worker's table and every plain mark in
    front, the line that ends a successful load, and the line that tells
    the model is already loaded, read outside capture, are logged and make
    the reader register that model as loaded; once delivered, the state is
    ModelReady, the loaded model is that model and the status names it. *)
Theorem worker_load_lines_give_model_ready
    (mark model raw : str) (r : reader) (w : world) :
  plain_mark mark = true ->
  In model Runner.available_models ->
  json_capture r = false ->
  strip raw = fully_loaded_line mark model
  \/ strip raw = already_loaded_line mark model ->
  reader_step r raw = (r, [add_to_log (strip raw); update_loaded_model model])
  /\ ui_state (props (deliver (snd (reader_step r raw)) w)) = STATE_MODEL_READY
  /\ loaded_model (props (deliver (snd (reader_step r raw)) w)) = model
  /\ status_message (props (deliver (snd (reader_step r raw)) w))
     = lit "Model '" ++ model ++ lit "' loaded".
Proof.
  intros Hm Hin Hc Hline.
  assert (Hscan : scan_status (strip raw) = [update_loaded_model model]
                  /\ startswith DELIMITER (strip raw) = false
                  /\ raw <> []).
  { assert (Hraw : forall s, strip raw = mark ++ 32%N :: s -> raw <> []).
    { intros s E ->. destruct mark; discriminate E. }
    unfold Runner.available_models in Hin. cbn [map In] in Hin.
    destruct Hline as [E | E]; rewrite E;
      [unfold fully_loaded_line | unfold already_loaded_line];
      repeat (destruct Hin as [<- | Hin];
              [split; [rewrite scan_status_after_mark;
                       [reflexivity | exact Hm | right; reflexivity | reflexivity]|];
               split; [apply (@delimiter_after_mark mark _ Hm) | eapply Hraw; exact E]|]);
      contradiction. }
  destruct Hscan as (Hscan & Hdel & Hne).
  assert (Hstep : reader_step r raw
                  = (r, [add_to_log (strip raw); update_loaded_model model])).
  { unfold reader_step. destruct raw as [|c raw']; [congruence|].
    unfold capture_step. rewrite Hdel, Hc, Hscan. reflexivity. }
  rewrite Hstep. repeat split.
Qed.

Lemma worker_load_lines_give_model_ready_witness :
  ui_state (props (deliver
     (snd (reader_step reader_start
             (fully_loaded_line (emoji true [127881%N] (lit "!")) (lit "base.en") ++ NL)))
     started)) = STATE_MODEL_READY.
Proof.
  apply (proj1 (proj2 (@worker_load_lines_give_model_ready
           (lit "!") (lit "base.en")
           (fully_loaded_line (lit "!") (lit "base.en") ++ NL) reader_start started
           eq_refl ltac:(cbn; tauto) eq_refl ltac:(left; reflexivity)))).
Defined.

Lemma split_go_no_newline (text cur : str) :
  no_newline text = true -> split_go NL text 0 cur = [rev cur ++ text].
Proof.
  revert cur; induction text as [|c text IH]; intros cur H.
  - cbn. rewrite app_nil_r. reflexivity.
  - cbn [no_newline forallb] in H. apply andb_true_iff in H. destruct H as [Hc H].
    apply negb_true_iff in Hc. cbn [split_go].
    change (startswith NL (c :: text)) with (N.eqb 10 c && true).
    rewrite N.eqb_sym, Hc. cbn [andb].
    rewrite (IH (c :: cur) H). cbn [rev]. rewrite <- app_assoc. reflexivity.
Qed.

Lemma split_no_newline (text : str) :
  no_newline text = true -> split NL text = [text].
Proof. intros H. apply (split_go_no_newline text [] H). Qed.





(** X16.  A transcript block ends in Transcribed.  After an opening
    delimiter, any lines that are not delimiters, and a closing line that is
    exactly the delimiter, the reader is back outside capture, and once its
    closures are delivered the state is Transcribed, the status is
    "Transcription complete" and the transcription output is the lines of
    the block, stripped and joined with newlines; this holds whatever the
    lines of the block made the status scan register on the way. *)
Theorem transcript_block_gives_transcribed
    (opening closing : str) (body : list str) (w : world) :
  is_delimiter_line opening = true ->
  Forall (fun raw => is_delimiter_line raw = false) body ->
  strip closing = DELIMITER ->
  fst (read_lines reader_start (opening :: body ++ [closing])) = reader_start
  /\ ui_state (props (deliver
        (snd (read_lines reader_start (opening :: body ++ [closing]))) w))
     = STATE_TRANSCRIBED
  /\ transcription_output (props (deliver
        (snd (read_lines reader_start (opening :: body ++ [closing]))) w))
     = join NL (map strip (filter nonempty body))
  /\ status_message (props (deliver
        (snd (read_lines reader_start (opening :: body ++ [closing]))) w))
     = lit "Transcription complete".
Proof.
  intros Ho Hb Hc.
  assert (Hclosing : is_delimiter_line closing = true).
  { unfold is_delimiter_line. rewrite Hc.
    destruct closing; [discriminate Hc | reflexivity]. }
  rewrite read_lines_cons.
  rewrite (reader_step_open reader_start opening eq_refl Ho). cbn [fst snd].
  rewrite read_lines_app. cbn [fst snd].
  cbn [json_lines reader_start].
  destruct (read_lines_body (mkReader true []) eq_refl Hb) as (E1 & _ & _).
  cbn [json_lines app] in E1. rewrite E1.
  rewrite read_lines_cons. cbn [read_lines fst snd].
  rewrite (@reader_step_close (mkReader true (map strip (filter nonempty body)))
             closing eq_refl Hclosing).
  rewrite Hc. change (scan_status DELIMITER) with (@nil update).
  cbn [fst snd json_lines]. rewrite app_nil_r.
  split; [reflexivity|].
  rewrite !deliver_app. cbn [deliver fold_left run_update props set_props].
  repeat split.
Qed.

Lemma transcript_block_gives_transcribed_witness :
  transcription_output (props (deliver
     (snd (read_lines reader_start
             ((DELIMITER ++ NL) :: [lit "[" ++ NL; lit "  1" ++ NL; lit "]" ++ NL]
              ++ [DELIMITER ++ NL]))) started))
  = join NL [lit "["; lit "1"; lit "]"].
Proof.
  apply (proj1 (proj2 (proj2 (@transcript_block_gives_transcribed
           (DELIMITER ++ NL) (DELIMITER ++ NL)
           [lit "[" ++ NL; lit "  1" ++ NL; lit "]" ++ NL] started
           eq_refl ltac:(repeat constructor) eq_refl)))).
Defined.

End WorkerOutput.

(* ================================================================== *)
(** ** The bound of the log *)
(* ================================================================== *)

Section LogBound.
Import Addon.

Lemma split_go_pieces (s cur : str) (skip : nat) :
  no_newline cur = true ->
  forallb no_newline (split_go NL s skip cur) = true.
Proof.
  assert (Hrev : forall t, no_newline t = true -> no_newline (rev t) = true).
  { intros t H. unfold no_newline in *. apply forallb_forall. intros x Hx.
    rewrite forallb_forall in H. apply H, in_rev, Hx. }
  revert cur skip; induction s as [|c s IH]; intros cur skip Hcur.
  - cbn. rewrite (Hrev cur Hcur). reflexivity.
  - cbn [split_go]. destruct skip as [|k]; [|apply IH, Hcur].
    change (startswith NL (c :: s)) with (N.eqb 10 c && true).
    destruct (N.eqb_spec 10 c) as [E | E]; cbn [andb].
    + cbn [forallb]. rewrite (Hrev cur Hcur). apply IH. reflexivity.
    + apply IH. cbn [no_newline forallb]. fold (no_newline cur). rewrite Hcur.
      rewrite andb_true_r. apply negb_true_iff, N.eqb_neq. congruence.
Qed.

Lemma split_join (pieces : list str) :
  pieces <> [] -> forallb no_newline pieces = true ->
  split NL (join NL pieces) = pieces.
Proof.
  induction pieces as [|x rest IH]; intros Hne H; [congruence|].
  cbn [forallb] in H. apply andb_true_iff in H. destruct H as [Hx Hrest].
  destruct rest as [|y rest].
  - cbn [join]. apply split_no_newline, Hx.
  - rewrite join_cons by discriminate.
    unfold split. rewrite (@split_go_line x _ [] Hx). cbn [rev app].
    f_equal. apply IH; [discriminate | exact Hrest].
Qed.

(** X17.  Whatever the log held and whatever line is added, after
    [add_to_log] the log has at most 100 pieces between newlines, and they
    are the last 100 pieces of the old log with the new line and its
    newline appended; nothing but the log is changed. *)
Theorem add_to_log_bounds_the_log (line : str) (p : WhisperXProperties) :
  length (split NL (process_log (run_add_to_log line p))) <= 100
  /\ split NL (process_log (run_add_to_log line p))
     = last_n 100 (split NL (process_log p ++ line ++ NL))
  /\ ui_state (run_add_to_log line p) = ui_state p
  /\ status_message (run_add_to_log line p) = status_message p
  /\ loaded_model (run_add_to_log line p) = loaded_model p
  /\ process_running (run_add_to_log line p) = process_running p
  /\ transcription_output (run_add_to_log line p) = transcription_output p.
Proof.
  assert (Hpieces : split NL (process_log (run_add_to_log line p))
                    = last_n 100 (split NL (process_log p ++ line ++ NL))).
  { unfold run_add_to_log.
    set (pieces := split NL (process_log p ++ line ++ NL)).
    assert (Hall : forallb no_newline pieces = true)
      by (apply (split_go_pieces _ [] 0); reflexivity).
    destruct (Nat.ltb_spec 100 (length pieces)) as [Hlong | Hshort];
      cbn [process_log set_process_log].
    - rewrite (slice_from_last (n:=100)) by lia.
      apply split_join.
      + unfold last_n. intros E. apply (f_equal (@length str)) in E.
        rewrite length_skipn in E. cbn in E. lia.
      + apply forallb_forall. intros x Hx. rewrite forallb_forall in Hall.
        apply Hall. unfold last_n in Hx.
        rewrite <- (firstn_skipn (length pieces - 100) pieces).
        apply in_or_app. right. exact Hx.
    - unfold last_n. replace (length pieces - 100) with 0 by lia. reflexivity. }
  split; [|split; [exact Hpieces | apply run_add_to_log_frame]].
  rewrite Hpieces. unfold last_n. rewrite length_skipn. lia.
Qed.

End LogBound.
